(** * boost::asio::gnutls::context — a shallow embedding of context.hpp

    The header wraps a GnuTLS credential handle behind the configuration
    interface of [boost::asio::ssl::context].  The embedding follows the
    header top to bottom:

    - [error_code] and the error categories,
    - [context_base]: the [method] enumeration, [file_format], the option
      and verify-mode constants,
    - the native engine as an interface ([Gnutls]) over an opaque engine
      state,
    - [impl], the credential store, and the non-throwing mutators written
      in a small state monad over (store, engine, caller's [ec]),
    - the throwing overloads (header compiled without BOOST_NO_EXCEPTIONS),
    - the object level: contexts holding a [shared_ptr<impl>], with the
      constructor, the destructor, move assignment and [native_handle]. *)

From Stdlib Require Import ZArith String Ascii.
From Stdlib.Strings Require Import Byte.
From stdpp Require Import base option gmap strings list.

Local Open Scope string_scope.
Local Open Scope Z_scope.

(** ** boost::system::error_code *)

(** The categories an [error_code] of this header can carry.
    [error::get_ssl_category] and [error::get_stream_category] are only
    declared in context.hpp; all that matters here is that they are
    distinct objects, distinct from the system category. *)
Inductive category : Type :=
  | system_category
  | ssl_category
  | stream_category.

Record error_code : Type := mk_error_code
  { value : Z;
    category_of : category }.

(** [error_code ec;] — the default-constructed value: 0 in the system
    category. *)
Definition no_error : error_code := mk_error_code 0 system_category.

(** [if (ec)] — contextual conversion to bool: the value is not 0. *)
Definition failed (e : error_code) : bool := negb (value e =? 0).

(** errno of [boost::asio::error::operation_not_supported] (EOPNOTSUPP on
    Linux), an error of the system category. *)
Definition EOPNOTSUPP : Z := 95.

Definition operation_not_supported : error_code :=
  mk_error_code EOPNOTSUPP system_category.

Definition GNUTLS_E_SUCCESS : Z := 0.

(** ** Exceptions

    [boost::system::system_error] carries the error code it was built
    from; [std::runtime_error] carries its text. *)

Inductive exception : Type :=
  | system_error (e : error_code)
  | runtime_error (what : string).

Inductive outcome (A : Type) : Type :=
  | Normal (a : A)
  | Thrown (e : exception).
Arguments Normal {A} a.
Arguments Thrown {A} e.

(** ** context_base *)

Inductive method : Type :=
  | tls | tls_client | tls_server
  | tlsv1 | tlsv1_client | tlsv1_server
  | tlsv11 | tlsv11_client | tlsv11_server
  | tlsv12 | tlsv12_client | tlsv12_server
  | tlsv13 | tlsv13_client | tlsv13_server
  | sslv23 | sslv23_client | sslv23_server.

(** The enumerators' values ([enum method : int]). *)
Definition method_value (x : method) : Z :=
  match x with
  | tls => 0x0000 | tls_client => 0x0001 | tls_server => 0x0002
  | tlsv1 => 0x1000 | tlsv1_client => 0x1001 | tlsv1_server => 0x1002
  | tlsv11 => 0x1100 | tlsv11_client => 0x1101 | tlsv11_server => 0x1102
  | tlsv12 => 0x1200 | tlsv12_client => 0x1201 | tlsv12_server => 0x1202
  | tlsv13 => 0x1300 | tlsv13_client => 0x1301 | tlsv13_server => 0x1302
  | sslv23 => 0x0300 | sslv23_client => 0x0301 | sslv23_server => 0x0302
  end.

Definition all_methods : list method :=
  [ tls; tls_client; tls_server;
    tlsv1; tlsv1_client; tlsv1_server;
    tlsv11; tlsv11_client; tlsv11_server;
    tlsv12; tlsv12_client; tlsv12_server;
    tlsv13; tlsv13_client; tlsv13_server;
    sslv23; sslv23_client; sslv23_server ].

(** [static_cast<unsigned int>(m)] on a 32-bit int. *)
Definition to_unsigned (z : Z) : Z := z mod 2 ^ 32.

(** [impl::is_server]: [(static_cast<unsigned int>(m) & 0x2) != 0]. *)
Definition is_server (x : method) : bool :=
  negb (Z.land (to_unsigned (method_value x)) 0x2 =? 0).

(** [impl::tls_version]: [static_cast<unsigned int>(m) >> 16]. *)
Definition tls_version (x : method) : Z :=
  Z.shiftr (to_unsigned (method_value x)) 16.

(** What the enumeration's comment documents: [0xXY.. => TLS X.Y], the
    forced version is the second byte of the constant. *)
Definition documented_version (x : method) : Z :=
  Z.land (Z.shiftr (method_value x) 8) 0xff.

(** The enumerators whose name ends in [_server]. *)
Definition named_server (x : method) : bool :=
  match x with
  | tls_server | tlsv1_server | tlsv11_server | tlsv12_server
  | tlsv13_server | sslv23_server => true
  | _ => false
  end.

Inductive file_format : Type := pem | der.

Definition default_workarounds : Z := 0x01.
Definition single_dh_use : Z := 0x02.
Definition no_sslv2 : Z := 0x04.
Definition no_sslv3 : Z := 0x08.

Definition verify_none : Z := 0x00.
Definition verify_peer : Z := 0x01.
Definition verify_fail_if_no_peer_cert : Z := 0x02.
Definition verify_client_once : Z := 0x04.

(** ** The native engine *)

Inductive gnutls_x509_crt_fmt_t : Type := GNUTLS_X509_FMT_DER | GNUTLS_X509_FMT_PEM.

Inductive gnutls_sec_param_t : Type := GNUTLS_SEC_PARAM_MEDIUM.

(** [format == pem ? GNUTLS_X509_FMT_PEM : GNUTLS_X509_FMT_DER] *)
Definition native_format (format : file_format) : gnutls_x509_crt_fmt_t :=
  match format with pem => GNUTLS_X509_FMT_PEM | der => GNUTLS_X509_FMT_DER end.

(** [gnutls_certificate_credentials_t]: a pointer, 0 is the null pointer. *)
Definition native_handle_type : Type := Z.

(** [gnutls_datum_t]: the bytes [data] points to and the [size] field. *)
Record gnutls_datum_t : Type := mk_datum
  { datum_data : string;
    datum_size : nat }.

(** [const_buffer]: a run of bytes owned by the caller. *)
Definition const_buffer : Type := list byte.

(** [std::string(static_cast<char const*>(b.data()), b.size())] *)
Definition string_of_buffer (b : const_buffer) : string := string_of_list_byte b.

(** [s.empty()] *)
Definition empty_string (s : string) : bool :=
  match s with EmptyString => true | String _ _ => false end.

(** [s.c_str()] read as a C string by the callee: the bytes before the
    first NUL. *)
Fixpoint c_str (s : string) : string :=
  match s with
  | EmptyString => EmptyString
  | String c r => if Ascii.eqb c zero then EmptyString else String c (c_str r)
  end.

(** The GnuTLS entry points the header calls, over an engine state [G]
    that holds every native credential object.  Each function takes the
    engine state and returns its status code with the new state. *)
Class Gnutls (G : Type) : Type :=
  { gnutls_strerror : Z -> option string;
    gnutls_certificate_allocate_credentials : G -> Z * native_handle_type * G;
    gnutls_certificate_free_credentials : native_handle_type -> G -> G;
    gnutls_certificate_set_known_dh_params :
      native_handle_type -> gnutls_sec_param_t -> G -> Z * G;
    gnutls_certificate_set_x509_system_trust : native_handle_type -> G -> Z * G;
    gnutls_certificate_set_x509_key_file2 :
      native_handle_type -> string -> string -> gnutls_x509_crt_fmt_t ->
      string -> Z -> G -> Z * G;
    gnutls_certificate_set_x509_key_mem2 :
      native_handle_type -> gnutls_datum_t -> gnutls_datum_t ->
      gnutls_x509_crt_fmt_t -> string -> Z -> G -> Z * G;
    gnutls_certificate_set_x509_trust_mem :
      native_handle_type -> gnutls_datum_t -> gnutls_x509_crt_fmt_t -> G -> Z * G }.

(** [error_category::name] *)
Definition name : string := "GnuTLS".

(** [error_category::message]: the engine's string, or a generic one. *)
Definition message `{Gnutls G} (v : Z) : string :=
  match gnutls_strerror v with
  | Some s => s
  | None => "GnuTLS error"
  end.

(** Addresses of context objects and of credential stores. *)
Definition addr : Type := nat.

(** ** A small engine to run the model on

    [small_engine] hands out handles 1, 2, 3, ... and refuses once four
    are live; it accepts a certificate/key pair when both have the same
    length; asked to trust a PEM buffer it answers with the number of
    certificate headers it finds there, 0 when there is none, and a DER
    buffer is one certificate to it unless it is empty. *)

Record small_state : Type := mk_small
  { next_handle : Z;
    installed : list (native_handle_type * string) }.

Definition GNUTLS_E_MEMORY_ERROR : Z := -25.
Definition GNUTLS_E_NO_CERTIFICATE_FOUND : Z := -49.
Definition GNUTLS_E_CERTIFICATE_KEY_MISMATCH : Z := -60.
Definition GNUTLS_E_FILE_ERROR : Z := -64.
Definition GNUTLS_E_ASN1_DER_ERROR : Z := -69.

Definition small_strerror (v : Z) : option string :=
  if v =? 0 then Some "Success."
  else if v =? GNUTLS_E_MEMORY_ERROR then Some "Internal error in memory allocation."
  else if v =? GNUTLS_E_NO_CERTIFICATE_FOUND then Some "No certificate was found."
  else if v =? GNUTLS_E_CERTIFICATE_KEY_MISMATCH
       then Some "The certificate and the given key do not match."
  else if v =? GNUTLS_E_FILE_ERROR then Some "Error while reading file."
  else Some "(unknown error code)".

Definition small_allocate (g : small_state) : Z * native_handle_type * small_state :=
  if next_handle g <? 5
  then (GNUTLS_E_SUCCESS, next_handle g, mk_small (next_handle g + 1) (installed g))
  else (GNUTLS_E_MEMORY_ERROR, 0, g).

Definition small_install (h : native_handle_type) (what : string) (g : small_state)
  : small_state :=
  mk_small (next_handle g) ((h, what) :: installed g).

Definition small_key_mem2 (h : native_handle_type) (c k : gnutls_datum_t)
    (f : gnutls_x509_crt_fmt_t) (pass : string) (flags : Z) (g : small_state)
  : Z * small_state :=
  if Nat.eqb (datum_size c) (datum_size k)
  then (GNUTLS_E_SUCCESS, small_install h (datum_data c) g)
  else (GNUTLS_E_CERTIFICATE_KEY_MISMATCH, g).

Definition small_key_file2 (h : native_handle_type) (c k : string)
    (f : gnutls_x509_crt_fmt_t) (pass : string) (flags : Z) (g : small_state)
  : Z * small_state :=
  if empty_string k then (GNUTLS_E_FILE_ERROR, g)
  else (GNUTLS_E_SUCCESS, small_install h c g).

(** The number of places in [s] at which [marker] starts. *)
Fixpoint count_occurrences (marker s : string) : nat :=
  match s with
  | EmptyString => 0%nat
  | String _ r =>
      ((if String.prefix marker s then 1 else 0) + count_occurrences marker r)%nat
  end.

Definition pem_certificate_header : string := "-----BEGIN CERTIFICATE-----".

Definition small_trust_mem (h : native_handle_type) (ca : gnutls_datum_t)
    (f : gnutls_x509_crt_fmt_t) (g : small_state) : Z * small_state :=
  match f with
  | GNUTLS_X509_FMT_PEM =>
      let n := count_occurrences pem_certificate_header (datum_data ca) in
      (Z.of_nat n, if Nat.eqb n 0 then g else small_install h (datum_data ca) g)
  | GNUTLS_X509_FMT_DER =>
      if Nat.eqb (datum_size ca) 0 then (GNUTLS_E_ASN1_DER_ERROR, g)
      else (1, small_install h (datum_data ca) g)
  end.

#[export] Instance small_engine : Gnutls small_state :=
  { gnutls_strerror := small_strerror;
    gnutls_certificate_allocate_credentials := small_allocate;
    gnutls_certificate_free_credentials :=
      fun h g => mk_small (next_handle g)
                   (filter (fun e => negb (fst e =? h)) (installed g));
    gnutls_certificate_set_known_dh_params := fun _ _ g => (GNUTLS_E_SUCCESS, g);
    gnutls_certificate_set_x509_system_trust :=
      fun h g => (GNUTLS_E_SUCCESS, small_install h "system trust" g);
    gnutls_certificate_set_x509_key_file2 := small_key_file2;
    gnutls_certificate_set_x509_key_mem2 := small_key_mem2;
    gnutls_certificate_set_x509_trust_mem := small_trust_mem }.

Definition small_start : small_state := mk_small 1 [].

Section Context_hpp.

Context {G : Type} `{!Gnutls G}.
Context {verify_context stream_base : Type}.

(** ** The credential store, [context::impl] *)

Definition verify_callback_t : Type := bool -> verify_context -> bool.
Definition servername_callback_t : Type := stream_base -> string -> bool.

Record impl : Type := mk_impl
  { m : method;
    parent : option addr;
    cred : native_handle_type;
    verify : Z;
    opts : Z;
    certificate_file : string;
    private_key_file : string;
    certificate : string;
    private_key : string;
    passphrase : string;
    verify_callback : option verify_callback_t;
    servername_callback : option servername_callback_t }.

(** The member initialisers of [impl]: [m(m_)], [parent(p_)], the handle
    written by the engine, [verify = 0], [opts = 0], empty strings and
    empty [std::function]s. *)
Definition new_impl (p_ : addr) (m_ : method) (c : native_handle_type) : impl :=
  mk_impl m_ (Some p_) c 0 0 "" "" "" "" "" None None.

(** Field assignments [m_impl->field = x]. *)
Definition with_parent (x : option addr) (i : impl) : impl :=
  mk_impl (m i) x (cred i) (verify i) (opts i) (certificate_file i)
    (private_key_file i) (certificate i) (private_key i) (passphrase i)
    (verify_callback i) (servername_callback i).
Definition with_verify (x : Z) (i : impl) : impl :=
  mk_impl (m i) (parent i) (cred i) x (opts i) (certificate_file i)
    (private_key_file i) (certificate i) (private_key i) (passphrase i)
    (verify_callback i) (servername_callback i).
Definition with_opts (x : Z) (i : impl) : impl :=
  mk_impl (m i) (parent i) (cred i) (verify i) x (certificate_file i)
    (private_key_file i) (certificate i) (private_key i) (passphrase i)
    (verify_callback i) (servername_callback i).
Definition with_certificate_file (x : string) (i : impl) : impl :=
  mk_impl (m i) (parent i) (cred i) (verify i) (opts i) x
    (private_key_file i) (certificate i) (private_key i) (passphrase i)
    (verify_callback i) (servername_callback i).
Definition with_private_key_file (x : string) (i : impl) : impl :=
  mk_impl (m i) (parent i) (cred i) (verify i) (opts i) (certificate_file i)
    x (certificate i) (private_key i) (passphrase i)
    (verify_callback i) (servername_callback i).
Definition with_certificate (x : string) (i : impl) : impl :=
  mk_impl (m i) (parent i) (cred i) (verify i) (opts i) (certificate_file i)
    (private_key_file i) x (private_key i) (passphrase i)
    (verify_callback i) (servername_callback i).
Definition with_private_key (x : string) (i : impl) : impl :=
  mk_impl (m i) (parent i) (cred i) (verify i) (opts i) (certificate_file i)
    (private_key_file i) (certificate i) x (passphrase i)
    (verify_callback i) (servername_callback i).
Definition with_passphrase (x : string) (i : impl) : impl :=
  mk_impl (m i) (parent i) (cred i) (verify i) (opts i) (certificate_file i)
    (private_key_file i) (certificate i) (private_key i) x
    (verify_callback i) (servername_callback i).
Definition with_verify_callback (x : option verify_callback_t) (i : impl) : impl :=
  mk_impl (m i) (parent i) (cred i) (verify i) (opts i) (certificate_file i)
    (private_key_file i) (certificate i) (private_key i) (passphrase i)
    x (servername_callback i).
Definition with_servername_callback (x : option servername_callback_t) (i : impl)
  : impl :=
  mk_impl (m i) (parent i) (cred i) (verify i) (opts i) (certificate_file i)
    (private_key_file i) (certificate i) (private_key i) (passphrase i)
    (verify_callback i) x.

(** ** The monad of a member function

    A non-throwing member function runs on the store [*m_impl], the engine
    state, and the caller's [error_code] object it received by reference. *)

Record st : Type := mk_st
  { self : impl;
    native : G;
    ec : error_code }.

Definition M (A : Type) : Type := st -> A * st.

Definition Mret {A : Type} (a : A) : M A := fun s => (a, s).

Definition Mbind {A B : Type} (c : M A) (k : A -> M B) : M B :=
  fun s => let (a, s') := c s in k a s'.

Notation "x <- c ;; k" := (Mbind c (fun x => k))
  (at level 100, c at next level, right associativity).
Notation "c ;; k" := (Mbind c (fun _ => k))
  (at level 100, right associativity).

(** [m_impl->...] read. *)
Definition read_impl : M impl := fun s => (self s, s).

(** [m_impl->field = x]. *)
Definition assign_impl (f : impl -> impl) : M unit :=
  fun s => (tt, mk_st (f (self s)) (native s) (ec s)).

(** Reading [ec], e.g. for [return ec;]. *)
Definition read_ec : M error_code := fun s => (ec s, s).

(** [ec = e]. *)
Definition assign_ec (e : error_code) : M unit :=
  fun s => (tt, mk_st (self s) (native s) e).

(** A call into the engine. *)
Definition call_native {A : Type} (f : G -> A * G) : M A :=
  fun s => let (a, g) := f (native s) in (a, mk_st (self s) g (ec s)).

(** ** The non-throwing mutators *)

Definition set_options (o : Z) : M error_code :=
  assign_impl (with_opts o) ;;
  read_ec.

Definition clear_options : M unit :=
  assign_impl (with_opts 0).

Definition set_default_verify_paths : M error_code :=
  i <- read_impl ;;
  ret <- call_native (gnutls_certificate_set_x509_system_trust (cred i)) ;;
  (if negb (ret =? GNUTLS_E_SUCCESS)
   then assign_ec (mk_error_code ret ssl_category) else Mret tt) ;;
  read_ec.

Definition set_verify_mode (v : Z) : M error_code :=
  assign_impl (with_verify v) ;;
  read_ec.

Definition set_verify_callback (callback : verify_callback_t) : M error_code :=
  assign_impl (with_verify_callback (Some callback)) ;;
  read_ec.

Definition use_passphrase (pass : string) : M error_code :=
  assign_impl (with_passphrase pass) ;;
  read_ec.

Definition use_certificate_file (filename : string) (_ : file_format) : M error_code :=
  assign_impl (with_certificate_file filename) ;;
  read_ec.

Definition use_private_key_file (filename : string) (format : file_format)
  : M error_code :=
  i <- read_impl ;;
  if empty_string (certificate_file i)
  then assign_ec operation_not_supported ;; read_ec
  else
    assign_impl (with_private_key_file filename) ;;
    i <- read_impl ;;
    ret <- call_native
             (gnutls_certificate_set_x509_key_file2 (cred i)
                (c_str (certificate_file i)) (c_str (private_key_file i))
                (native_format format) (c_str (passphrase i)) 0) ;;
    (if negb (ret =? GNUTLS_E_SUCCESS)
     then assign_ec (mk_error_code ret ssl_category) else Mret tt) ;;
    read_ec.

Definition use_tmp_dh_file (_ : string) : M error_code :=
  read_ec.

Definition use_certificate (cert : const_buffer) (_ : file_format) : M error_code :=
  assign_impl (with_certificate (string_of_buffer cert)) ;;
  read_ec.

Definition use_private_key (key : const_buffer) (format : file_format)
  : M error_code :=
  i <- read_impl ;;
  if empty_string (certificate i)
  then assign_ec operation_not_supported ;; read_ec
  else
    assign_impl (with_private_key (string_of_buffer key)) ;;
    i <- read_impl ;;
    let cert := mk_datum (certificate i) (String.length (certificate i)) in
    let key := mk_datum (private_key i) (String.length (private_key i)) in
    ret <- call_native
             (gnutls_certificate_set_x509_key_mem2 (cred i) cert key
                (native_format format) (c_str (passphrase i)) 0) ;;
    (if negb (ret =? GNUTLS_E_SUCCESS)
     then assign_ec (mk_error_code ret ssl_category) else Mret tt) ;;
    read_ec.

Definition use_tmp_dh (_ : const_buffer) : M error_code :=
  read_ec.

Definition set_servername_callback (cb : option servername_callback_t)
  : M error_code :=
  assign_impl (with_servername_callback cb) ;;
  read_ec.

Definition set_verify_trust (cert : const_buffer) (format : file_format)
  : M error_code :=
  let cert := string_of_buffer cert in
  let ca := mk_datum cert (String.length cert) in
  i <- read_impl ;;
  ret <- call_native
           (gnutls_certificate_set_x509_trust_mem (cred i) ca (native_format format)) ;;
  (if ret <? 0 then assign_ec (mk_error_code ret ssl_category) else Mret tt) ;;
  read_ec.

(** ** Calls and call sequences

    One constructor per non-throwing mutator, with its arguments. *)

Inductive call : Type :=
  | SetOptions (o : Z)
  | ClearOptions
  | SetDefaultVerifyPaths
  | SetVerifyMode (v : Z)
  | SetVerifyCallback (callback : verify_callback_t)
  | UsePassphrase (pass : string)
  | UseCertificateFile (filename : string) (format : file_format)
  | UsePrivateKeyFile (filename : string) (format : file_format)
  | UseTmpDhFile (filename : string)
  | UseCertificate (cert : const_buffer) (format : file_format)
  | UsePrivateKey (key : const_buffer) (format : file_format)
  | UseTmpDh (dh : const_buffer)
  | SetServernameCallback (cb : option servername_callback_t)
  | SetVerifyTrust (cert : const_buffer) (format : file_format).

(** The value a member function hands back: [clear_options] is [void]. *)
Definition returning (c : M error_code) : M (option error_code) :=
  r <- c ;; Mret (Some r).

Definition nonthrowing_form (c : call) : M (option error_code) :=
  match c with
  | SetOptions o => returning (set_options o)
  | ClearOptions => clear_options ;; Mret None
  | SetDefaultVerifyPaths => returning set_default_verify_paths
  | SetVerifyMode v => returning (set_verify_mode v)
  | SetVerifyCallback cb => returning (set_verify_callback cb)
  | UsePassphrase pass => returning (use_passphrase pass)
  | UseCertificateFile f fmt => returning (use_certificate_file f fmt)
  | UsePrivateKeyFile f fmt => returning (use_private_key_file f fmt)
  | UseTmpDhFile f => returning (use_tmp_dh_file f)
  | UseCertificate b fmt => returning (use_certificate b fmt)
  | UsePrivateKey b fmt => returning (use_private_key b fmt)
  | UseTmpDh b => returning (use_tmp_dh b)
  | SetServernameCallback cb => returning (set_servername_callback cb)
  | SetVerifyTrust b fmt => returning (set_verify_trust b fmt)
  end.

(** A caller that configures one context with one [error_code] variable. *)
Fixpoint run (t : list call) : M unit :=
  match t with
  | [] => Mret tt
  | c :: t' => nonthrowing_form c ;; run t'
  end.

(** The buffer most recently handed to [use_certificate] in [t]. *)
Fixpoint last_certificate (t : list call) : option string :=
  match t with
  | [] => None
  | c :: t' =>
      match last_certificate t' with
      | Some x => Some x
      | None => match c with
                | UseCertificate b _ => Some (string_of_buffer b)
                | _ => None
                end
      end
  end.

(** The path most recently handed to [use_certificate_file] in [t]. *)
Fixpoint last_certificate_file (t : list call) : option string :=
  match t with
  | [] => None
  | c :: t' =>
      match last_certificate_file t' with
      | Some x => Some x
      | None => match c with
                | UseCertificateFile f _ => Some f
                | _ => None
                end
      end
  end.

(** The mutators whose body has no assignment to [ec]. *)
Definition never_fails (c : call) : bool :=
  match c with
  | SetOptions _ | ClearOptions | SetVerifyMode _ | SetVerifyCallback _
  | UsePassphrase _ | UseCertificateFile _ _ | UseCertificate _ _
  | UseTmpDh _ | UseTmpDhFile _ | SetServernameCallback _ => true
  | SetDefaultVerifyPaths | UsePrivateKeyFile _ _ | UsePrivateKey _ _
  | SetVerifyTrust _ _ => false
  end.

(** ** The throwing overloads *)

(** A throwing member function runs on the store and the engine only. *)
Definition T (A : Type) : Type := impl * G -> outcome A * (impl * G).

(** [error_code ec;] — the local the overload passes on. *)
Definition local_ec (x : impl * G) : st := mk_st (fst x) (snd x) no_error.

(** [if (ec) boost::throw_exception(boost::system::system_error(ec));] *)
Definition throw_if_ec (s : st) : outcome unit * (impl * G) :=
  if failed (ec s)
  then (Thrown (system_error (ec s)), (self s, native s))
  else (Normal tt, (self s, native s)).

Definition set_options_throwing (o : Z) : T unit :=
  fun x => throw_if_ec (snd (set_options o (local_ec x))).

Definition clear_options_throwing : T unit :=
  fun x => throw_if_ec (snd (clear_options (local_ec x))).

Definition set_default_verify_paths_throwing : T unit :=
  fun x => throw_if_ec (snd (set_default_verify_paths (local_ec x))).

Definition set_verify_mode_throwing (v : Z) : T unit :=
  fun x => throw_if_ec (snd (set_verify_mode v (local_ec x))).

Definition set_verify_callback_throwing (callback : verify_callback_t) : T unit :=
  fun x => throw_if_ec (snd (set_verify_callback callback (local_ec x))).

Definition use_passphrase_throwing (pass : string) : T unit :=
  fun x => throw_if_ec (snd (use_passphrase pass (local_ec x))).

Definition use_certificate_file_throwing (filename : string) (format : file_format)
  : T unit :=
  fun x => throw_if_ec (snd (use_certificate_file filename format (local_ec x))).

Definition use_private_key_file_throwing (filename : string) (format : file_format)
  : T unit :=
  fun x => throw_if_ec (snd (use_private_key_file filename format (local_ec x))).

Definition use_tmp_dh_file_throwing (filename : string) : T unit :=
  fun x => throw_if_ec (snd (use_tmp_dh_file filename (local_ec x))).

Definition use_certificate_throwing (cert : const_buffer) (format : file_format)
  : T unit :=
  fun x => throw_if_ec (snd (use_certificate cert format (local_ec x))).

Definition use_private_key_throwing (key : const_buffer) (format : file_format)
  : T unit :=
  fun x => throw_if_ec (snd (use_private_key key format (local_ec x))).

Definition use_tmp_dh_throwing (dh : const_buffer) : T unit :=
  fun x => throw_if_ec (snd (use_tmp_dh dh (local_ec x))).

(** The overload of each mutator without the [error_code&] parameter, where
    the class declares one.  [set_servername_callback] and
    [set_verify_trust] are declared with the [error_code&] parameter only. *)
Definition throwing_form (c : call) : option (T unit) :=
  match c with
  | SetOptions o => Some (set_options_throwing o)
  | ClearOptions => Some clear_options_throwing
  | SetDefaultVerifyPaths => Some set_default_verify_paths_throwing
  | SetVerifyMode v => Some (set_verify_mode_throwing v)
  | SetVerifyCallback cb => Some (set_verify_callback_throwing cb)
  | UsePassphrase pass => Some (use_passphrase_throwing pass)
  | UseCertificateFile f fmt => Some (use_certificate_file_throwing f fmt)
  | UsePrivateKeyFile f fmt => Some (use_private_key_file_throwing f fmt)
  | UseTmpDhFile f => Some (use_tmp_dh_file_throwing f)
  | UseCertificate b fmt => Some (use_certificate_throwing b fmt)
  | UsePrivateKey b fmt => Some (use_private_key_throwing b fmt)
  | UseTmpDh b => Some (use_tmp_dh_throwing b)
  | SetServernameCallback _ => None
  | SetVerifyTrust _ _ => None
  end.

(** The specification's account of a throwing form [th] of the non-throwing
    [nt]: invoke [nt] on a fresh error variable; the effect on the store and
    the engine is that of [nt]; an exception is raised exactly when the
    variable then indicates failure, and it carries that error code. *)
Definition throws_what_nonthrowing_reports {A : Type} (th : T unit) (nt : M A) : Prop :=
  forall (i : impl) (g : G),
    let s' := snd (nt (mk_st i g no_error)) in
    snd (th (i, g)) = (self s', native s') /\
    (failed (ec s') = true -> fst (th (i, g)) = Thrown (system_error (ec s'))) /\
    (failed (ec s') = false -> fst (th (i, g)) = Normal tt).

(** ** Context objects and shared stores

    A [context] object lives at an address and holds [m_impl], a
    [shared_ptr<impl>] ([None] is the empty pointer).  A store is kept with
    its use count: stream objects may hold further references.  [None] as
    the result of an operation stands for undefined behaviour (a member
    access through an empty [m_impl], an object that does not exist). *)

Record heap : Type := mk_heap
  { contexts : gmap addr (option addr);
    stores : gmap addr (impl * nat);
    engine : G }.

(** Dropping one [shared_ptr] reference; the last one runs [~impl], which
    frees the native credentials. *)
Definition release (p : option addr) (h : heap) : heap :=
  match p with
  | None => h
  | Some a =>
      match stores h !! a with
      | Some (i, S (S n)) =>
          mk_heap (contexts h) (<[a := (i, S n)]> (stores h)) (engine h)
      | Some (i, _) =>
          mk_heap (contexts h) (delete a (stores h))
            (gnutls_certificate_free_credentials (cred i) (engine h))
      | None => h
      end
  end.

(** [explicit context(method m) : m_impl(std::make_shared<impl>(this, m))].
    When [impl::impl] throws, no context object comes to exist. *)
Definition context_ctor (this : addr) (m_ : method) (h : heap)
  : option (outcome unit * heap) :=
  let '(ret, c, g) := gnutls_certificate_allocate_credentials (engine h) in
  if ret =? GNUTLS_E_SUCCESS then
    let (_, g') := gnutls_certificate_set_known_dh_params c GNUTLS_SEC_PARAM_MEDIUM g in
    let a := fresh (dom (stores h)) in
    Some (Normal tt,
          mk_heap (<[this := Some a]> (contexts h))
                  (<[a := (new_impl this m_ c, 1%nat)]> (stores h)) g')
  else
    what ← gnutls_strerror ret;
    Some (Thrown (runtime_error
                    ("gnutls_certificate_allocate_credentials failed: " ++ what)),
          mk_heap (contexts h) (stores h) g).

(** [native_handle()]: [return m_impl->cred;] *)
Definition native_handle (this : addr) (h : heap) : option native_handle_type :=
  p ← contexts h !! this;
  a ← p;
  x ← stores h !! a;
  Some (cred (fst x)).

(** [operator=(context&& other)]: [m_impl = std::move(other.m_impl);
    m_impl->parent = this;].  The [shared_ptr] move assignment empties
    [other.m_impl] into a temporary, swaps it with [m_impl] and drops what
    [m_impl] held. *)
Definition move_assign (this other : addr) (h : heap) : option heap :=
  src ← contexts h !! other;
  let h1 := mk_heap (<[other := None]> (contexts h)) (stores h) (engine h) in
  old ← contexts h1 !! this;
  let h2 := mk_heap (<[this := src]> (contexts h1)) (stores h1) (engine h1) in
  let h3 := release old h2 in
  a ← src;
  x ← stores h3 !! a;
  Some (mk_heap (contexts h3)
          (<[a := (with_parent (Some this) (fst x), snd x)]> (stores h3))
          (engine h3)).

(** [context(context&& other) { *this = std::move(other); }] *)
Definition move_ctor (this other : addr) (h : heap) : option heap :=
  move_assign this other
    (mk_heap (<[this := None]> (contexts h)) (stores h) (engine h)).

(** [~context() { if (m_impl) m_impl->parent = nullptr; }], then the
    member [m_impl] is destroyed. *)
Definition context_dtor (this : addr) (h : heap) : option heap :=
  p ← contexts h !! this;
  h1 ← match p with
       | None => Some h
       | Some a =>
           x ← stores h !! a;
           Some (mk_heap (contexts h)
                   (<[a := (with_parent None (fst x), snd x)]> (stores h))
                   (engine h))
       end;
  Some (release p (mk_heap (delete this (contexts h1)) (stores h1) (engine h1))).

(** The body [f] of a member function that goes through [m_impl], run on
    the context at [this] with the caller's error variable holding [e]:
    the first thing it does is the member access [m_impl->], which is
    undefined on an empty [m_impl]. *)
Definition on_context {A : Type} (this : addr) (f : M A) (e : error_code) (h : heap)
  : option (A * error_code * heap) :=
  p ← contexts h !! this;
  a ← p;
  x ← stores h !! a;
  let (r, s) := f (mk_st (fst x) (engine h) e) in
  Some (r, ec s, mk_heap (contexts h) (<[a := (self s, snd x)]> (stores h)) (native s)).

(** The mutators whose body has a member access through [m_impl]:
    all but [use_tmp_dh] and [use_tmp_dh_file], whose body is
    [return ec;]. *)
Definition touches_m_impl (c : call) : bool :=
  match c with
  | UseTmpDh _ | UseTmpDhFile _ => false
  | _ => true
  end.

(** A non-throwing mutator called on the context at [this].  The two
    that do not touch [m_impl] return [ec] and leave everything as it is,
    also when [m_impl] is empty. *)
Definition call_on_context (this : addr) (c : call) (e : error_code) (h : heap)
  : option (option error_code * error_code * heap) :=
  if touches_m_impl c then on_context this (nonthrowing_form c) e h
  else
    _ ← contexts h !! this;
    Some (Some e, e, h).

(** The context a store names as its owner. *)
Definition owner_of (a : addr) (h : heap) : option addr :=
  x ← stores h !! a;
  parent (fst x).

(** ** What a call sequence last wrote

    [last_write pick t] is the value of the last call of [t] that [pick]
    selects. *)
Fixpoint last_write {A : Type} (pick : call -> option A) (t : list call) : option A :=
  match t with
  | [] => None
  | c :: t' =>
      match last_write pick t' with
      | Some x => Some x
      | None => pick c
      end
  end.

(** The calls that assign [m_impl->opts], [m_impl->verify] and
    [m_impl->passphrase], with the value they assign. *)
Definition options_written (c : call) : option Z :=
  match c with
  | SetOptions o => Some o
  | ClearOptions => Some 0
  | _ => None
  end.

Definition verify_mode_written (c : call) : option Z :=
  match c with
  | SetVerifyMode v => Some v
  | _ => None
  end.

Definition passphrase_written (c : call) : option string :=
  match c with
  | UsePassphrase pass => Some pass
  | _ => None
  end.

(** The mutators that call into the engine. *)
Definition calls_engine (c : call) : bool :=
  match c with
  | SetDefaultVerifyPaths | UsePrivateKeyFile _ _ | UsePrivateKey _ _
  | SetVerifyTrust _ _ => true
  | _ => false
  end.

(** ** Heaps the class can produce

    Every store a context holds is live with a positive use count, and no
    two contexts hold the same store ([context] cannot be copied). *)
Definition heap_wf (h : heap) : Prop :=
  (forall (c p : addr), contexts h !! c = Some (Some p) ->
     exists i n, stores h !! p = Some (i, S n)) /\
  (forall (c1 c2 p : addr),
     contexts h !! c1 = Some (Some p) -> contexts h !! c2 = Some (Some p) -> c1 = c2).

End Context_hpp.

(** ** Concrete configurations on the small engine *)

Definition small_heap : Type := @heap small_state unit unit.
Definition small_st : Type := @st small_state unit unit.

(** A server store as the constructor leaves it, on a started engine. *)
Definition fresh_server : small_st :=
  mk_st (new_impl 0%nat tls_server 1) small_start no_error.

(** Construct a context and carry on with the heap it leaves. *)
Definition constructed (this : addr) (x : method) (h : small_heap) : small_heap :=
  match context_ctor this x h with
  | Some (_, h') => h'
  | None => h
  end.

(** Two contexts, a server at address 10 and a client at address 11. *)
Definition two_contexts : small_heap :=
  constructed 11%nat tls_client (constructed 10%nat tls_server (mk_heap ∅ ∅ small_start)).

(** An engine state in which every handle is taken. *)
Definition exhausted : small_heap := mk_heap ∅ ∅ (mk_small 5 []).

(** A server context at address 10 whose store is also held by one
    stream: use count 2. *)
Definition shared_server : small_heap :=
  mk_heap {[ 10%nat := Some 0%nat ]}
          {[ 0%nat := (new_impl 10%nat tls_server 1, 2%nat) ]}
          (mk_small 2 []).

(** A passphrase with an embedded NUL. *)
Definition pass_with_nul : string := "ab" ++ String zero "cd".

(** The small engine, except that loading the system trust answers with
    the number of certificates it loaded. *)
Definition counting_engine : Gnutls small_state :=
  {| gnutls_strerror := small_strerror;
     gnutls_certificate_allocate_credentials := small_allocate;
     gnutls_certificate_free_credentials :=
       fun h g => mk_small (next_handle g)
                    (filter (fun e => negb (fst e =? h)) (installed g));
     gnutls_certificate_set_known_dh_params := fun _ _ g => (GNUTLS_E_SUCCESS, g);
     gnutls_certificate_set_x509_system_trust :=
       fun h g => (3, small_install h "system trust" g);
     gnutls_certificate_set_x509_key_file2 := small_key_file2;
     gnutls_certificate_set_x509_key_mem2 := small_key_mem2;
     gnutls_certificate_set_x509_trust_mem := small_trust_mem |}.

(** [two_contexts] after the client at 11 was moved into the server at 10:
    the context at 11 is left empty. *)
Definition after_move : small_heap :=
  match move_assign 10%nat 11%nat two_contexts with
  | Some h' => h'
  | None => two_contexts
  end.

(** The bytes of "cert" and of "key!". *)
Definition cert_bytes : const_buffer := [x63%byte; x65%byte; x72%byte; x74%byte].
Definition key_bytes : const_buffer := [x6b%byte; x65%byte; x79%byte; x21%byte].

(** [two_contexts] with a certificate buffer stored through the client
    context at 11. *)
Definition client_with_certificate : small_heap :=
  match on_context 11%nat (use_certificate cert_bytes pem) no_error two_contexts with
  | Some (_, _, h') => h'
  | None => two_contexts
  end.

(** * Properties *)

Section Properties.

Context {G : Type} `{!Gnutls G}.
Context {verify_context stream_base : Type}.

Local Abbreviation impl := (@impl verify_context stream_base).
Local Abbreviation st := (@st G verify_context stream_base).
Local Abbreviation call := (@call verify_context stream_base).
Local Abbreviation heap := (@heap G verify_context stream_base).
Local Abbreviation M := (@M G verify_context stream_base).
Local Abbreviation T := (@T G verify_context stream_base).

Create HintDb member.

#[local] Hint Unfold Mbind Mret read_impl assign_impl read_ec assign_ec call_native
  returning : member.

Ltac run_member := autounfold with member; cbn [fst snd self native ec].

(** *** Role and version accessors *)

Lemma is_server_tests_bit_1 (x : method) :
  is_server x = Z.testbit (method_value x) 1.
Proof. destruct x; reflexivity. Qed.

(** C2: on every named constant [is_server] is true exactly for the
    [_server] enumerators, which are the ones with bit 1 set; but
    [tls_version] shifts by 16 bits and so returns 0 on every named
    constant, also on the ones that force a version: for [tlsv12]
    (0x1200) it returns 0, not the 0x12 that the enumeration documents. *)
Theorem tls_version_shifts_the_version_out (x : method) :
  is_server x = named_server x /\
  is_server x = Z.testbit (method_value x) 1 /\
  tls_version x = 0 /\
  tls_version tlsv12 = 0 /\
  documented_version tlsv12 = 0x12.
Proof.
  split; [destruct x; reflexivity|].
  split; [apply is_server_tests_bit_1|].
  split; [destruct x; reflexivity|].
  split; reflexivity.
Qed.

(** *** Stored bit-sets *)

(** C6: [set_verify_mode v] and [set_options v] store exactly [v], for any
    [v], touch neither the engine nor [ec], and their throwing forms return
    normally; [clear_options] stores 0 whatever was stored before. *)
Theorem verify_mode_and_options_read_back (v : Z) (i : impl) (g : G) (e : error_code) :
  let s := mk_st i g e in
  (verify (self (snd (set_verify_mode v s))) = v /\
   opts (self (snd (set_options v s))) = v /\
   opts (self (snd (clear_options s))) = 0) /\
  (set_verify_mode v s = (e, mk_st (with_verify v i) g e) /\
   set_options v s = (e, mk_st (with_opts v i) g e) /\
   clear_options s = (tt, mk_st (with_opts 0 i) g e)) /\
  (set_verify_mode_throwing v (i, g) = (Normal tt, (with_verify v i, g)) /\
   set_options_throwing v (i, g) = (Normal tt, (with_opts v i, g)) /\
   clear_options_throwing (i, g) = (Normal tt, (with_opts 0 i, g))).
Proof.
  cbv zeta. repeat split.
Qed.

(** *** Diffie-Hellman parameters *)

(** C7: [use_tmp_dh] and [use_tmp_dh_file] leave the store, the engine and
    [ec] as they are, whatever the argument, and their throwing forms
    return normally. *)
Theorem use_tmp_dh_does_nothing (dh : const_buffer) (filename : string) (s : st) :
  use_tmp_dh dh s = (ec s, s) /\
  use_tmp_dh_file filename s = (ec s, s) /\
  use_tmp_dh_throwing dh (self s, native s) = (Normal tt, (self s, native s)) /\
  use_tmp_dh_file_throwing filename (self s, native s) = (Normal tt, (self s, native s)).
Proof. repeat split. Qed.

(** *** Mutators that do not write [ec] *)

(** C10: a mutator of the [never_fails] list leaves [ec] as it was passed
    in, and returns that same value where it returns one ([clear_options]
    returns nothing). *)
Theorem never_fails_keeps_ec (c : call) (s : st) :
  never_fails c = true ->
  ec (snd (nonthrowing_form c s)) = ec s /\
  fst (nonthrowing_form c s) =
    match c with ClearOptions => None | _ => Some (ec s) end.
Proof.
  destruct c; cbn [never_fails]; intros Hc; try discriminate Hc; split; reflexivity.
Qed.

(** *** Trust installation *)

(** C5, as the code has it: [set_verify_trust] writes [ec] exactly when
    the engine's result is negative, and then writes that result in the
    SSL category, which is a failure; called with a clear [ec] it ends in
    failure if and only if the engine's result is negative.  A result of
    0 or more, the number of certificates the engine processed, leaves
    [ec] as it was: a buffer from which the engine takes no certificate
    is an error only when the engine answers it with a negative code. *)
Theorem set_verify_trust_reports_negative_results
    (cert : const_buffer) (format : file_format) (s : st) :
  let ca := mk_datum (string_of_buffer cert) (String.length (string_of_buffer cert)) in
  let r := gnutls_certificate_set_x509_trust_mem (cred (self s)) ca
             (native_format format) (native s) in
  let out := set_verify_trust cert format s in
  native (snd out) = snd r /\
  self (snd out) = self s /\
  fst out = ec (snd out) /\
  ec (snd out) = (if fst r <? 0 then mk_error_code (fst r) ssl_category else ec s) /\
  (fst r < 0 -> failed (ec (snd out)) = true) /\
  (0 <= fst r -> ec (snd out) = ec s) /\
  (failed (ec s) = false -> (failed (ec (snd out)) = true <-> fst r < 0)).
Proof.
  cbv zeta. unfold set_verify_trust. run_member.
  destruct (gnutls_certificate_set_x509_trust_mem _ _ _ _) as [ret g'].
  cbn [fst snd]. destruct (Z.ltb_spec ret 0) as [Hneg | Hpos]; run_member.
  - repeat split; try reflexivity; intros; try assumption; try lia.
    + unfold failed; cbn. destruct (Z.eqb_spec ret 0); [lia | reflexivity].
    + unfold failed; cbn. destruct (Z.eqb_spec ret 0); [lia | reflexivity].
  - repeat split; try reflexivity; intros; try lia; congruence.
Qed.

(** *** The sequencing check of the private-key installers *)

Lemma empty_string_true (x : string) : empty_string x = true <-> x = "".
Proof. destruct x; cbn; split; intros E; try reflexivity; discriminate E. Qed.

Lemma operation_not_supported_is_not_ssl (ret : Z) :
  mk_error_code ret ssl_category <> operation_not_supported.
Proof. unfold operation_not_supported; intros E; discriminate E. Qed.

(** With an empty stored certificate buffer the installer stops at once. *)
Lemma use_private_key_stops (key : const_buffer) (format : file_format) (s : st) :
  certificate (self s) = "" ->
  use_private_key key format s =
    (operation_not_supported, mk_st (self s) (native s) operation_not_supported).
Proof.
  intros E. unfold use_private_key. run_member. rewrite E. reflexivity.
Qed.

Lemma use_private_key_file_stops (filename : string) (format : file_format) (s : st) :
  certificate_file (self s) = "" ->
  use_private_key_file filename format s =
    (operation_not_supported, mk_st (self s) (native s) operation_not_supported).
Proof.
  intros E. unfold use_private_key_file. run_member. rewrite E. reflexivity.
Qed.

(** With a non-empty one it goes on to the engine, and [ec] ends as the
    engine's verdict or as it came in. *)
Lemma use_private_key_goes_on (key : const_buffer) (format : file_format) (s : st) :
  certificate (self s) <> "" ->
  exists ret : Z,
    fst (use_private_key key format s) =
      (if ret =? GNUTLS_E_SUCCESS then ec s else mk_error_code ret ssl_category).
Proof.
  intros E. unfold use_private_key. run_member.
  destruct (certificate (self s)) as [|a r] eqn:Ec; [contradiction|]. cbn [empty_string].
  cbn [self native ec with_private_key certificate private_key cred passphrase].
  destruct (gnutls_certificate_set_x509_key_mem2 _ _ _ _ _ _ _) as [ret g'].
  exists ret. destruct (ret =? GNUTLS_E_SUCCESS); reflexivity.
Qed.

Lemma use_private_key_file_goes_on (filename : string) (format : file_format) (s : st) :
  certificate_file (self s) <> "" ->
  exists ret : Z,
    fst (use_private_key_file filename format s) =
      (if ret =? GNUTLS_E_SUCCESS then ec s else mk_error_code ret ssl_category).
Proof.
  intros E. unfold use_private_key_file. run_member.
  destruct (certificate_file (self s)) as [|a r] eqn:Ec; [contradiction|]. cbn [empty_string].
  cbn [self native ec with_private_key_file certificate_file private_key_file cred passphrase].
  destruct (gnutls_certificate_set_x509_key_file2 _ _ _ _ _ _ _) as [ret g'].
  exists ret. destruct (ret =? GNUTLS_E_SUCCESS); reflexivity.
Qed.

Lemma goes_on_is_not_sequencing_error (ret : Z) (e : error_code) :
  e <> operation_not_supported ->
  (if ret =? GNUTLS_E_SUCCESS then e else mk_error_code ret ssl_category)
    <> operation_not_supported.
Proof.
  intros He. destruct (ret =? GNUTLS_E_SUCCESS); [exact He|].
  apply operation_not_supported_is_not_ssl.
Qed.

(** What one call does to the two certificate fields. *)
Lemma certificate_after_call (c : call) (s : st) :
  certificate (self (snd (nonthrowing_form c s))) =
    match c with
    | UseCertificate b _ => string_of_buffer b
    | _ => certificate (self s)
    end.
Proof.
  destruct c; cbn [nonthrowing_form];
    try reflexivity.
  - unfold set_default_verify_paths. run_member.
    destruct (gnutls_certificate_set_x509_system_trust _ _) as [ret g'].
    destruct (ret =? GNUTLS_E_SUCCESS); reflexivity.
  - unfold use_private_key_file. run_member.
    destruct (empty_string _); [reflexivity|].
    cbn [self native ec].
    destruct (gnutls_certificate_set_x509_key_file2 _ _ _ _ _ _ _) as [ret g'].
    destruct (ret =? GNUTLS_E_SUCCESS); reflexivity.
  - unfold use_private_key. run_member.
    destruct (empty_string _); [reflexivity|].
    cbn [self native ec].
    destruct (gnutls_certificate_set_x509_key_mem2 _ _ _ _ _ _ _) as [ret g'].
    destruct (ret =? GNUTLS_E_SUCCESS); reflexivity.
  - unfold set_verify_trust. run_member.
    destruct (gnutls_certificate_set_x509_trust_mem _ _ _ _) as [ret g'].
    destruct (ret <? 0); reflexivity.
Qed.

Lemma certificate_file_after_call (c : call) (s : st) :
  certificate_file (self (snd (nonthrowing_form c s))) =
    match c with
    | UseCertificateFile f _ => f
    | _ => certificate_file (self s)
    end.
Proof.
  destruct c; cbn [nonthrowing_form];
    try reflexivity.
  - unfold set_default_verify_paths. run_member.
    destruct (gnutls_certificate_set_x509_system_trust _ _) as [ret g'].
    destruct (ret =? GNUTLS_E_SUCCESS); reflexivity.
  - unfold use_private_key_file. run_member.
    destruct (empty_string _); [reflexivity|].
    cbn [self native ec].
    destruct (gnutls_certificate_set_x509_key_file2 _ _ _ _ _ _ _) as [ret g'].
    destruct (ret =? GNUTLS_E_SUCCESS); reflexivity.
  - unfold use_private_key. run_member.
    destruct (empty_string _); [reflexivity|].
    cbn [self native ec].
    destruct (gnutls_certificate_set_x509_key_mem2 _ _ _ _ _ _ _) as [ret g'].
    destruct (ret =? GNUTLS_E_SUCCESS); reflexivity.
  - unfold set_verify_trust. run_member.
    destruct (gnutls_certificate_set_x509_trust_mem _ _ _ _) as [ret g'].
    destruct (ret <? 0); reflexivity.
Qed.

Lemma run_cons (c : call) (t : list call) (s : st) :
  run (c :: t) s = run t (snd (nonthrowing_form c s)).
Proof.
  cbn [run]. unfold Mbind. destruct (nonthrowing_form c s); reflexivity.
Qed.

(** After a call sequence the stored certificate buffer is the last one
    handed to [use_certificate], or the one the sequence started with. *)
Lemma certificate_after_run (t : list call) :
  forall s : st,
    certificate (self (snd (run t s))) =
      default (certificate (self s)) (last_certificate t).
Proof.
  induction t as [|c t IH]; intros s; [reflexivity|].
  rewrite run_cons, IH. cbn [last_certificate].
  destruct (last_certificate t); [reflexivity|].
  rewrite certificate_after_call. destruct c; reflexivity.
Qed.

Lemma certificate_file_after_run (t : list call) :
  forall s : st,
    certificate_file (self (snd (run t s))) =
      default (certificate_file (self s)) (last_certificate_file t).
Proof.
  induction t as [|c t IH]; intros s; [reflexivity|].
  rewrite run_cons, IH. cbn [last_certificate_file].
  destruct (last_certificate_file t); [reflexivity|].
  rewrite certificate_file_after_call. destruct c; reflexivity.
Qed.

(** C1, as the code has it: in any state whose stored certificate of the
    matching form is empty, so in particular when none was ever stored for
    that form, [use_private_key] and [use_private_key_file] fail with
    [operation_not_supported] and change nothing but [ec] (the handle, the
    engine and the stored key material stay as they were); and the
    sequencing error is raised exactly when that stored certificate is
    empty, whether or not one was stored before. *)
Theorem private_key_needs_a_nonempty_certificate
    (t : list call) (p_ : addr) (m_ : method) (c : native_handle_type) (g : G)
    (e0 e : error_code)
    (key : const_buffer) (filename : string) (format : file_format) :
  let s := snd (run t (mk_st (new_impl p_ m_ c) g e0)) in
  let s_e := mk_st (self s) (native s) e in
  (last_certificate t = None -> certificate (self s) = "") /\
  (last_certificate_file t = None -> certificate_file (self s) = "") /\
  (certificate (self s) = "" ->
     use_private_key key format s_e =
       (operation_not_supported, mk_st (self s) (native s) operation_not_supported)) /\
  (certificate_file (self s) = "" ->
     use_private_key_file filename format s_e =
       (operation_not_supported, mk_st (self s) (native s) operation_not_supported)) /\
  (e <> operation_not_supported ->
     (fst (use_private_key key format s_e) = operation_not_supported
      <-> certificate (self s) = "")) /\
  (e <> operation_not_supported ->
     (fst (use_private_key_file filename format s_e) = operation_not_supported
      <-> certificate_file (self s) = "")).
Proof.
  cbv zeta.
  set (s := snd (run t _)).
  split.
  { intros Hn. subst s. rewrite certificate_after_run, Hn. reflexivity. }
  split.
  { intros Hn. subst s. rewrite certificate_file_after_run, Hn. reflexivity. }
  split.
  { intros E. apply (use_private_key_stops key format (mk_st (self s) (native s) e) E). }
  split.
  { intros E.
    apply (use_private_key_file_stops filename format (mk_st (self s) (native s) e) E). }
  split.
  - intros He. split.
    + intros Hr.
      destruct (String.string_dec (certificate (self s)) "") as [E | E]; [exact E|].
      destruct (use_private_key_goes_on key format (mk_st (self s) (native s) e) E)
        as [ret Hret].
      rewrite Hret in Hr. exfalso.
      exact (goes_on_is_not_sequencing_error ret e He Hr).
    + intros E.
      rewrite (use_private_key_stops key format (mk_st (self s) (native s) e) E).
      reflexivity.
  - intros He. split.
    + intros Hr.
      destruct (String.string_dec (certificate_file (self s)) "") as [E | E]; [exact E|].
      destruct (use_private_key_file_goes_on filename format
                  (mk_st (self s) (native s) e) E) as [ret Hret].
      rewrite Hret in Hr. exfalso.
      exact (goes_on_is_not_sequencing_error ret e He Hr).
    + intros E.
      rewrite (use_private_key_file_stops filename format
                 (mk_st (self s) (native s) e) E).
      reflexivity.
Qed.

(** C9: from a fresh store and after any call sequence [t], the file form
    of the key installer gets past its sequencing check exactly when the
    path last stored by [use_certificate_file] in [t] is non-empty, whatever
    [use_certificate] stored in [t]; and the buffer form exactly when the
    buffer last stored by [use_certificate] in [t] is non-empty, whatever
    [use_certificate_file] stored. *)
Theorem certificate_forms_are_independent
    (t : list call) (p_ : addr) (m_ : method) (c : native_handle_type) (g : G)
    (e0 e : error_code)
    (key : const_buffer) (filename : string) (format : file_format) :
  e <> operation_not_supported ->
  let s := snd (run t (mk_st (new_impl p_ m_ c) g e0)) in
  let s_e := mk_st (self s) (native s) e in
  (fst (use_private_key_file filename format s_e) <> operation_not_supported
   <-> exists name, name <> "" /\ last_certificate_file t = Some name) /\
  (fst (use_private_key key format s_e) <> operation_not_supported
   <-> exists buf, buf <> "" /\ last_certificate t = Some buf) /\
  (last_certificate_file t = None ->
     use_private_key_file filename format s_e =
       (operation_not_supported, mk_st (self s) (native s) operation_not_supported)) /\
  (last_certificate t = None ->
     use_private_key key format s_e =
       (operation_not_supported, mk_st (self s) (native s) operation_not_supported)).
Proof.
  intros He. cbv zeta.
  set (s := snd (run t _)).
  assert (Hf : certificate_file (self s) = default "" (last_certificate_file t))
    by (subst s; apply certificate_file_after_run).
  assert (Hb : certificate (self s) = default "" (last_certificate t))
    by (subst s; apply certificate_after_run).
  split; [|split; [|split]].
  - split.
    + intros Hr. destruct (last_certificate_file t) as [name|] eqn:El.
      * exists name. split; [|reflexivity]. intros ->. apply Hr.
        rewrite (use_private_key_file_stops filename format
                   (mk_st (self s) (native s) e) Hf).
        reflexivity.
      * exfalso. apply Hr.
        rewrite (use_private_key_file_stops filename format
                   (mk_st (self s) (native s) e) Hf).
        reflexivity.
    + intros (name & Hne & El). rewrite El in Hf. cbn in Hf.
      assert (E : certificate_file (self (mk_st (self s) (native s) e)) <> "")
        by (cbn [self]; congruence).
      destruct (use_private_key_file_goes_on filename format _ E) as [ret Hret].
      rewrite Hret. apply goes_on_is_not_sequencing_error. exact He.
  - split.
    + intros Hr. destruct (last_certificate t) as [buf|] eqn:El.
      * exists buf. split; [|reflexivity]. intros ->. apply Hr.
        rewrite (use_private_key_stops key format
                   (mk_st (self s) (native s) e) Hb).
        reflexivity.
      * exfalso. apply Hr.
        rewrite (use_private_key_stops key format
                   (mk_st (self s) (native s) e) Hb).
        reflexivity.
    + intros (buf & Hne & El). rewrite El in Hb. cbn in Hb.
      assert (E : certificate (self (mk_st (self s) (native s) e)) <> "")
        by (cbn [self]; congruence).
      destruct (use_private_key_goes_on key format _ E) as [ret Hret].
      rewrite Hret. apply goes_on_is_not_sequencing_error. exact He.
  - intros Hn. rewrite Hn in Hf.
    apply (use_private_key_file_stops filename format (mk_st (self s) (native s) e) Hf).
  - intros Hn. rewrite Hn in Hb.
    apply (use_private_key_stops key format (mk_st (self s) (native s) e) Hb).
Qed.

(** *** Throwing overloads *)

(** The three lines every throwing overload consists of meet the
    specification's account, whatever non-throwing function they call. *)
Lemma local_ec_then_throw {A : Type} (nt : M A) :
  throws_what_nonthrowing_reports (fun x => throw_if_ec (snd (nt (local_ec x)))) nt.
Proof.
  intros i g. cbv zeta. unfold local_ec, throw_if_ec. cbn [fst snd].
  destruct (failed (ec (snd (nt (mk_st i g no_error))))) eqn:Ef;
    repeat split; intros Hf; try reflexivity; discriminate Hf.
Qed.

Lemma returning_state (f : M error_code) (s : st) :
  snd (returning f s) = snd (f s).
Proof. unfold returning, Mbind, Mret. destruct (f s); reflexivity. Qed.

Lemma throws_what_returning_reports (th : T unit) (f : M error_code) :
  throws_what_nonthrowing_reports th f ->
  throws_what_nonthrowing_reports th (returning f).
Proof.
  intros Hth i g. cbv zeta. rewrite returning_state. apply Hth.
Qed.

(** C3, as the code has it: every mutator but [set_servername_callback]
    and [set_verify_trust] has a throwing overload, and that overload does
    what the non-throwing form does on a fresh error variable and throws a
    [system_error] carrying that variable exactly when it indicates
    failure; [set_servername_callback] and [set_verify_trust] have the
    non-throwing form only. *)
Theorem throwing_forms_wrap_the_nonthrowing_ones (c : call) :
  match throwing_form c with
  | Some th => throws_what_nonthrowing_reports th (nonthrowing_form c)
  | None =>
      (exists cb, c = SetServernameCallback cb) \/
      (exists cert format, c = SetVerifyTrust cert format)
  end.
Proof.
  destruct c; cbn [throwing_form nonthrowing_form];
    try (apply throws_what_returning_reports; apply local_ec_then_throw).
  - intros i g. cbv zeta. repeat split; intros Hf; try reflexivity; discriminate Hf.
  - left. eexists. reflexivity.
  - right. do 2 eexists. reflexivity.
Qed.

(** *** Construction, move assignment and the native handle *)

Lemma release_other_store (pa : option addr) (p : addr) (h : heap) :
  pa <> Some p ->
  stores (release pa h) !! p = stores h !! p /\
  contexts (release pa h) = contexts h.
Proof.
  intros Hne. unfold release.
  destruct pa as [a|]; [|split; reflexivity].
  assert (a <> p) by congruence.
  destruct (stores h !! a) as [[i [|[|n]]]|] eqn:Ea; cbn [stores contexts];
    split; try reflexivity.
  - apply lookup_delete_ne. assumption.
  - apply lookup_delete_ne. assumption.
  - apply lookup_insert_ne. assumption.
Qed.

(** Move assignment from a context that holds a live store which the
    destination does not hold, step by step. *)
Lemma move_assign_steps (a b p : addr) (old : option addr) (x : impl * nat) (h : heap) :
  contexts h !! b = Some (Some p) ->
  (<[b:=None]> (contexts h) : gmap addr (option addr)) !! a = Some old ->
  old <> Some p ->
  stores h !! p = Some x ->
  let h3 := release old
              (mk_heap (<[a:=Some p]> (<[b:=None]> (contexts h))) (stores h) (engine h)) in
  move_assign a b h =
    Some (mk_heap (<[a:=Some p]> (<[b:=None]> (contexts h)))
            (<[p := (with_parent (Some a) (fst x), snd x)]> (stores h3)) (engine h3)) /\
  stores h3 !! p = Some x.
Proof.
  intros Hb Ha Hop Hp. cbv zeta.
  set (h2 := mk_heap (<[a:=Some p]> (<[b:=None]> (contexts h))) (stores h) (engine h)).
  destruct (release_other_store old p h2 Hop) as [Hs Hc].
  assert (Hp3 : stores (release old h2) !! p = Some x) by (rewrite Hs; exact Hp).
  split; [|exact Hp3].
  unfold move_assign. rewrite Hb. cbn [mbind option_bind contexts stores engine].
  rewrite Ha. cbn [mbind option_bind]. fold h2. rewrite Hp3.
  cbn [mbind option_bind]. rewrite Hc. reflexivity.
Qed.

(** C4: move-assigning the context at [a] from the context at [b] that
    holds a store: [a.native_handle()] is then what [b.native_handle()]
    was before and the store names [a] as its owner; and when [b] is
    another context than [a], [b] holds the empty pointer afterwards:
    [native_handle] and every mutator that goes through [m_impl] are
    undefined on it, and what is left, [use_tmp_dh] and [use_tmp_dh_file],
    configures nothing. *)
Theorem move_assign_hands_over_the_store
    (h : heap) (a b : addr) (pa : option addr) (p : addr) (i : impl) (n : nat) :
  contexts h !! a = Some pa ->
  (a <> b -> pa <> Some p) ->
  contexts h !! b = Some (Some p) ->
  stores h !! p = Some (i, n) ->
  exists h' : heap,
    move_assign a b h = Some h' /\
    native_handle b h = Some (cred i) /\
    native_handle a h' = Some (cred i) /\
    owner_of p h' = Some a /\
    contexts h' !! a = Some (Some p) /\
    (a <> b ->
     contexts h' !! b = Some None /\
     native_handle b h' = None /\
     (forall (c : call) (e : error_code),
        call_on_context b c e h' =
          if touches_m_impl c then None else Some (Some e, e, h'))).
Proof.
  intros Ha Hpa Hb Hp.
  assert (Hold : exists old,
             (<[b:=None]> (contexts h) : gmap addr (option addr)) !! a = Some old /\
             old <> Some p).
  { destruct (decide (a = b)) as [-> | Hab].
    - exists None. split; [apply lookup_insert_eq | discriminate].
    - exists pa. split; [|exact (Hpa Hab)].
      rewrite lookup_insert_ne by congruence. exact Ha. }
  destruct Hold as (old & Hlook & Hop).
  destruct (move_assign_steps a b p old (i, n) h Hb Hlook Hop Hp) as [E _].
  rewrite E. eexists. split; [reflexivity|].
  cbn [fst snd].
  set (h3 := release old _).
  assert (Hna : (<[a:=Some p]> (<[b:=None]> (contexts h)) : gmap addr (option addr)) !! a
                = Some (Some p)) by apply lookup_insert_eq.
  split.
  { unfold native_handle. rewrite Hb. cbn [mbind option_bind]. rewrite Hp. reflexivity. }
  split.
  { unfold native_handle. cbn [contexts stores]. rewrite Hna.
    cbn [mbind option_bind]. rewrite lookup_insert_eq. reflexivity. }
  split.
  { unfold owner_of. cbn [stores]. rewrite lookup_insert_eq. reflexivity. }
  split; [exact Hna|].
  intros Hab.
  assert (Hnb : (<[a:=Some p]> (<[b:=None]> (contexts h)) : gmap addr (option addr)) !! b
                = Some None).
  { rewrite lookup_insert_ne by congruence. apply lookup_insert_eq. }
  split; [exact Hnb|]. split.
  { unfold native_handle. cbn [contexts]. rewrite Hnb. reflexivity. }
  intros c e. unfold call_on_context, on_context. cbn [contexts]. rewrite Hnb.
  destruct (touches_m_impl c); reflexivity.
Qed.

(** C8: for every method constant, when the engine allocates the
    credentials (success, with a non-null handle) the constructor returns
    normally and [native_handle()] is that non-null handle; when the engine
    reports anything else the constructor throws [std::runtime_error], no
    context comes to exist and no error code is produced. *)
Theorem construction_succeeds_or_throws (this : addr) (m_ : method) (h : heap) :
  let r := gnutls_certificate_allocate_credentials (engine h) in
  let ret := fst (fst r) in
  let c := snd (fst r) in
  (ret = GNUTLS_E_SUCCESS -> c <> 0 ->
     exists h' : heap,
       context_ctor this m_ h = Some (Normal tt, h') /\
       native_handle this h' = Some c /\ c <> 0 /\
       (exists a, contexts h' !! this = Some (Some a) /\ owner_of a h' = Some this)) /\
  (ret <> GNUTLS_E_SUCCESS ->
     forall what : string, gnutls_strerror ret = Some what ->
       context_ctor this m_ h =
         Some (Thrown (runtime_error
                         ("gnutls_certificate_allocate_credentials failed: " ++ what)),
               mk_heap (contexts h) (stores h) (snd r))).
Proof.
  cbv zeta. unfold context_ctor.
  destruct (gnutls_certificate_allocate_credentials (engine h)) as [[ret c] g].
  cbn [fst snd]. split.
  - intros -> Hc. cbn.
    destruct (gnutls_certificate_set_known_dh_params c GNUTLS_SEC_PARAM_MEDIUM g)
      as [ignored g'].
    eexists. split; [reflexivity|]. split; [|split; [exact Hc|]].
    + unfold native_handle. cbn [contexts stores]. rewrite lookup_insert_eq.
      cbn [mbind option_bind]. rewrite lookup_insert_eq. reflexivity.
    + eexists. split.
      * cbn [contexts]. apply lookup_insert_eq.
      * unfold owner_of. cbn [stores]. rewrite lookup_insert_eq. reflexivity.
  - intros Hret what Hwhat.
    destruct (Z.eqb_spec ret GNUTLS_E_SUCCESS) as [E | E]; [contradiction|].
    rewrite Hwhat. reflexivity.
Qed.

(** ** Further properties of the mutators *)

(** Case analysis on a call, with the four engine-calling bodies opened
    and the engine's answers named. *)
Ltac call_cases c :=
  destruct c; cbn [nonthrowing_form never_fails calls_engine];
  unfold set_default_verify_paths, use_private_key_file, use_private_key,
    set_verify_trust;
  run_member;
  repeat first
    [ progress cbn [fst snd self native ec]
    | match goal with
      | |- context [if empty_string ?x then _ else _] => destruct (empty_string x)
      | |- context [gnutls_certificate_set_x509_system_trust ?a ?b] =>
          destruct (gnutls_certificate_set_x509_system_trust a b) as [? ?]
      | |- context [gnutls_certificate_set_x509_key_file2 ?a ?b ?c ?d ?e ?f ?g] =>
          destruct (gnutls_certificate_set_x509_key_file2 a b c d e f g) as [? ?]
      | |- context [gnutls_certificate_set_x509_key_mem2 ?a ?b ?c ?d ?e ?f ?g] =>
          destruct (gnutls_certificate_set_x509_key_mem2 a b c d e f g) as [? ?]
      | |- context [gnutls_certificate_set_x509_trust_mem ?a ?b ?c ?d] =>
          destruct (gnutls_certificate_set_x509_trust_mem a b c d) as [? ?]
      end ].

Lemma failed_ssl (ret : Z) :
  failed (mk_error_code ret ssl_category) = negb (ret =? GNUTLS_E_SUCCESS).
Proof. reflexivity. Qed.

(** One call leaves the construction-time fields alone. *)
Lemma identity_after_call (c : call) (s : st) :
  m (self (snd (nonthrowing_form c s))) = m (self s) /\
  cred (self (snd (nonthrowing_form c s))) = cred (self s) /\
  parent (self (snd (nonthrowing_form c s))) = parent (self s).
Proof.
  call_cases c;
    repeat match goal with
           | |- context [if ?b then _ else _] => destruct b
           end;
    repeat split.
Qed.

(** One call either leaves [ec] alone or leaves a failure in it. *)
Lemma ec_after_call (c : call) (s : st) :
  ec (snd (nonthrowing_form c s)) = ec s \/
  failed (ec (snd (nonthrowing_form c s))) = true.
Proof.
  call_cases c; try (left; reflexivity);
    try (right; reflexivity).
  - destruct (z =? GNUTLS_E_SUCCESS) eqn:E; cbn [negb]; run_member;
      [left; reflexivity | right; rewrite failed_ssl, E; reflexivity].
  - destruct (z =? GNUTLS_E_SUCCESS) eqn:E; cbn [negb]; run_member;
      [left; reflexivity | right; rewrite failed_ssl, E; reflexivity].
  - destruct (z =? GNUTLS_E_SUCCESS) eqn:E; cbn [negb]; run_member;
      [left; reflexivity | right; rewrite failed_ssl, E; reflexivity].
  - destruct (Z.ltb_spec z 0) as [Hneg | Hpos]; run_member;
      [right | left; reflexivity].
    rewrite failed_ssl. destruct (Z.eqb_spec z GNUTLS_E_SUCCESS) as [E | E];
      [unfold GNUTLS_E_SUCCESS in E; lia | reflexivity].
Qed.

(** A call outside [calls_engine] leaves the engine state alone. *)
Lemma engine_after_call (c : call) (s : st) :
  calls_engine c = false -> native (snd (nonthrowing_form c s)) = native s.
Proof.
  destruct c; cbn [calls_engine]; intros Hc; try discriminate Hc; reflexivity.
Qed.

(** X1: [set_default_verify_paths] writes [ec] exactly when the engine's
    answer differs from [GNUTLS_E_SUCCESS], so also when the engine answers
    with a positive number (of certificates loaded): the code it then
    writes is that number, in the SSL category, and it is a failure.  The
    store is left as it was. *)
Theorem set_default_verify_paths_reports_every_nonzero_result (s : st) :
  let r := gnutls_certificate_set_x509_system_trust (cred (self s)) (native s) in
  let out := set_default_verify_paths s in
  self (snd out) = self s /\
  native (snd out) = snd r /\
  fst out = ec (snd out) /\
  ec (snd out) =
    (if fst r =? GNUTLS_E_SUCCESS then ec s else mk_error_code (fst r) ssl_category) /\
  (failed (ec s) = false -> (failed (ec (snd out)) = true <-> fst r <> GNUTLS_E_SUCCESS)) /\
  (0 < fst r -> ec (snd out) = mk_error_code (fst r) ssl_category /\
                failed (ec (snd out)) = true).
Proof.
  cbv zeta. unfold set_default_verify_paths. run_member.
  destruct (gnutls_certificate_set_x509_system_trust _ _) as [ret g'].
  cbn [fst snd]. unfold GNUTLS_E_SUCCESS.
  destruct (Z.eqb_spec ret 0) as [E | E]; cbn [negb]; run_member.
  - repeat split; try reflexivity; intros; try lia; congruence.
  - repeat split; try reflexivity; intros; try assumption;
      unfold failed; cbn [value]; destruct (Z.eqb_spec ret 0); try lia; reflexivity.
Qed.

(** A call sequence leaves the construction-time fields alone. *)
Lemma identity_after_run (t : list call) (s : st) :
  m (self (snd (run t s))) = m (self s) /\
  cred (self (snd (run t s))) = cred (self s) /\
  parent (self (snd (run t s))) = parent (self s).
Proof.
  revert s. induction t as [|c t IH]; intros s; [repeat split|].
  rewrite run_cons.
  destruct (IH (snd (nonthrowing_form c s))) as (Hm & Hc & Hp).
  destruct (identity_after_call c s) as (Hm' & Hc' & Hp').
  repeat split; congruence.
Qed.

(** X2: whatever sequence of mutators runs on the store the constructor
    built, the method constant, and with it the role and the version the
    accessors report, the native handle and the back-reference stay what
    the constructor set. *)
Theorem mutators_keep_method_handle_and_owner
    (t : list call) (p_ : addr) (m_ : method) (c : native_handle_type) (g : G)
    (e : error_code) :
  let s := snd (run t (mk_st (new_impl p_ m_ c) g e)) in
  m (self s) = m_ /\
  is_server (m (self s)) = is_server m_ /\
  tls_version (m (self s)) = tls_version m_ /\
  cred (self s) = c /\
  parent (self s) = Some p_.
Proof.
  cbv zeta.
  destruct (identity_after_run t (mk_st (new_impl p_ m_ c) g e)) as (Hm & Hc & Hp).
  cbn [self new_impl m cred parent] in Hm, Hc, Hp.
  rewrite Hm. repeat split; assumption.
Qed.

(** X3: a sequence of mutators none of which is one of the four that call
    into the engine leaves the engine state untouched: certificates,
    passphrases, callbacks, options and verify mode are only stored. *)
Theorem storing_mutators_leave_the_engine_alone (t : list call) (s : st) :
  forallb (fun c => negb (calls_engine c)) t = true ->
  native (snd (run t s)) = native s.
Proof.
  revert s. induction t as [|c t IH]; intros s Ht; [reflexivity|].
  cbn [forallb] in Ht. apply andb_prop in Ht as [Hc Ht].
  rewrite run_cons, (IH _ Ht). apply engine_after_call.
  destruct (calls_engine c); [discriminate Hc | reflexivity].
Qed.

(** X4: no mutator ever resets [ec]: a failure held by the caller's
    error variable before a call sequence is still a failure after it, and
    a variable that is clear after the sequence was clear before it. *)
Theorem a_failed_ec_stays_failed (t : list call) (s : st) :
  (failed (ec s) = true -> failed (ec (snd (run t s))) = true) /\
  (failed (ec (snd (run t s))) = false -> failed (ec s) = false).
Proof.
  assert (Hkeep : forall (t : list call) (s : st),
             failed (ec s) = true -> failed (ec (snd (run t s))) = true).
  { clear t s. intros t. induction t as [|c t IH]; intros s Hs; [exact Hs|].
    rewrite run_cons. apply IH.
    destruct (ec_after_call c s) as [E | E]; [rewrite E; exact Hs | exact E]. }
  split; [apply Hkeep|].
  intros Hclear. destruct (failed (ec s)) eqn:Es; [|reflexivity].
  rewrite (Hkeep t s Es) in Hclear. discriminate Hclear.
Qed.

(** A field that each call either overwrites with what [pick] selects or
    leaves alone holds, after a sequence, what the sequence last wrote. *)
Lemma field_after_run {A : Type} (field : impl -> A) (pick : call -> option A) :
  (forall (c : call) (s : st),
     field (self (snd (nonthrowing_form c s))) = default (field (self s)) (pick c)) ->
  forall (t : list call) (s : st),
    field (self (snd (run t s))) = default (field (self s)) (last_write pick t).
Proof.
  intros Hcall t. induction t as [|c t IH]; intros s; [reflexivity|].
  rewrite run_cons, IH. cbn [last_write].
  destruct (last_write pick t); [reflexivity|]. apply Hcall.
Qed.

Lemma opts_after_call (c : call) (s : st) :
  opts (self (snd (nonthrowing_form c s))) = default (opts (self s)) (options_written c).
Proof.
  call_cases c;
    repeat match goal with
           | |- context [if ?b then _ else _] => destruct b
           end; reflexivity.
Qed.

Lemma verify_after_call (c : call) (s : st) :
  verify (self (snd (nonthrowing_form c s))) =
    default (verify (self s)) (verify_mode_written c).
Proof.
  call_cases c;
    repeat match goal with
           | |- context [if ?b then _ else _] => destruct b
           end; reflexivity.
Qed.

Lemma passphrase_after_call (c : call) (s : st) :
  passphrase (self (snd (nonthrowing_form c s))) =
    default (passphrase (self s)) (passphrase_written c).
Proof.
  call_cases c;
    repeat match goal with
           | |- context [if ?b then _ else _] => destruct b
           end; reflexivity.
Qed.

(** X5: [set_options] replaces the stored options, it does not add to
    them: after any call sequence on a fresh store the options are the
    argument of the last [set_options], 0 if [clear_options] came after it
    or if neither was called; likewise the verify mode is the argument of
    the last [set_verify_mode], or 0. *)
Theorem options_and_verify_mode_are_last_written
    (t : list call) (p_ : addr) (m_ : method) (c : native_handle_type) (g : G)
    (e : error_code) :
  let s := snd (run t (mk_st (new_impl p_ m_ c) g e)) in
  opts (self s) = default 0 (last_write options_written t) /\
  verify (self s) = default 0 (last_write verify_mode_written t) /\
  (forall o1 o2 : Z,
     opts (self (snd (run (t ++ [SetOptions o1; SetOptions o2])
                        (mk_st (new_impl p_ m_ c) g e)))) = o2).
Proof.
  cbv zeta. split; [|split].
  - apply (field_after_run opts options_written opts_after_call).
  - apply (field_after_run verify verify_mode_written verify_after_call).
  - intros o1 o2.
    rewrite (field_after_run opts options_written opts_after_call).
    assert (H : last_write options_written (t ++ [SetOptions o1; SetOptions o2]) = Some o2).
    { clear. induction t as [|x t IH]; [reflexivity|].
      cbn [app last_write]. rewrite IH. reflexivity. }
    rewrite H. reflexivity.
Qed.

(** The buffer form past its check, in full. *)
Lemma use_private_key_installs (key : const_buffer) (format : file_format) (s : st) :
  certificate (self s) <> "" ->
  let k := string_of_buffer key in
  let r := gnutls_certificate_set_x509_key_mem2 (cred (self s))
             (mk_datum (certificate (self s)) (String.length (certificate (self s))))
             (mk_datum k (String.length k))
             (native_format format) (c_str (passphrase (self s))) 0 (native s) in
  let e' := if fst r =? GNUTLS_E_SUCCESS then ec s
            else mk_error_code (fst r) ssl_category in
  use_private_key key format s = (e', mk_st (with_private_key k (self s)) (snd r) e').
Proof.
  intros E. cbv zeta. unfold use_private_key. run_member.
  destruct (certificate (self s)) as [|a x] eqn:Ec; [contradiction|]. cbn [empty_string].
  cbn [self native ec with_private_key certificate private_key cred passphrase].
  rewrite Ec.
  destruct (gnutls_certificate_set_x509_key_mem2 _ _ _ _ _ _ _) as [ret g'].
  cbn [fst snd]. destruct (ret =? GNUTLS_E_SUCCESS); reflexivity.
Qed.

Lemma use_private_key_file_installs (filename : string) (format : file_format) (s : st) :
  certificate_file (self s) <> "" ->
  let r := gnutls_certificate_set_x509_key_file2 (cred (self s))
             (c_str (certificate_file (self s))) (c_str filename)
             (native_format format) (c_str (passphrase (self s))) 0 (native s) in
  let e' := if fst r =? GNUTLS_E_SUCCESS then ec s
            else mk_error_code (fst r) ssl_category in
  use_private_key_file filename format s =
    (e', mk_st (with_private_key_file filename (self s)) (snd r) e').
Proof.
  intros E. cbv zeta. unfold use_private_key_file. run_member.
  destruct (certificate_file (self s)) as [|a x] eqn:Ec; [contradiction|].
  cbn [empty_string].
  cbn [self native ec with_private_key_file certificate_file private_key_file cred
       passphrase].
  rewrite Ec.
  destruct (gnutls_certificate_set_x509_key_file2 _ _ _ _ _ _ _) as [ret g'].
  cbn [fst snd]. destruct (ret =? GNUTLS_E_SUCCESS); reflexivity.
Qed.

(** X6: after any call sequence [t] on a fresh store in which a non-empty
    certificate buffer was last stored, [use_private_key] hands the engine
    the handle the store was built with, that last certificate, the key,
    the key's format (the format given with the certificate plays no part)
    and the last passphrase stored in [t], empty if none, cut at its first
    NUL.  The key is stored in the store whether or not the engine accepts
    the pair; [ec] becomes the engine's code when that is not
    [GNUTLS_E_SUCCESS] and is otherwise left alone. *)
Theorem use_private_key_pairs_last_certificate_and_passphrase
    (t : list call) (p_ : addr) (m_ : method) (c : native_handle_type) (g : G)
    (e0 : error_code) (cert : string)
    (key : const_buffer) (format : file_format) :
  last_certificate t = Some cert ->
  cert <> "" ->
  let s := snd (run t (mk_st (new_impl p_ m_ c) g e0)) in
  let k := string_of_buffer key in
  let pass := default "" (last_write passphrase_written t) in
  let r := gnutls_certificate_set_x509_key_mem2 c
             (mk_datum cert (String.length cert)) (mk_datum k (String.length k))
             (native_format format) (c_str pass) 0 (native s) in
  let out := use_private_key key format s in
  native (snd out) = snd r /\
  self (snd out) = with_private_key k (self s) /\
  private_key (self (snd out)) = k /\
  fst out = ec (snd out) /\
  ec (snd out) =
    (if fst r =? GNUTLS_E_SUCCESS then ec s else mk_error_code (fst r) ssl_category).
Proof.
  intros Hlast Hne. cbv zeta.
  set (s := snd (run t _)).
  assert (Hcert : certificate (self s) = cert).
  { subst s. rewrite certificate_after_run, Hlast. reflexivity. }
  assert (Hpass : passphrase (self s) = default "" (last_write passphrase_written t)).
  { subst s. apply (field_after_run passphrase passphrase_written passphrase_after_call). }
  assert (Hcred : cred (self s) = c).
  { subst s. apply (identity_after_run t). }
  assert (E : certificate (self s) <> "") by congruence.
  rewrite (use_private_key_installs key format s E).
  rewrite Hcert, Hpass, Hcred. cbn [fst snd self native ec with_private_key private_key].
  repeat split.
Qed.

(** X7: the file form likewise: after any call sequence [t] on a fresh
    store in which a non-empty certificate path was last stored,
    [use_private_key_file] hands the engine the handle the store was built
    with, that path, the key path, the key's format and the last
    passphrase stored in [t] (empty if none), each string cut at its
    first NUL; the key path is stored whether or not the engine accepts
    the pair. *)
Theorem use_private_key_file_pairs_last_certificate_and_passphrase
    (t : list call) (p_ : addr) (m_ : method) (c : native_handle_type) (g : G)
    (e0 : error_code) (path : string)
    (filename : string) (format : file_format) :
  last_certificate_file t = Some path ->
  path <> "" ->
  let s := snd (run t (mk_st (new_impl p_ m_ c) g e0)) in
  let pass := default "" (last_write passphrase_written t) in
  let r := gnutls_certificate_set_x509_key_file2 c (c_str path) (c_str filename)
             (native_format format) (c_str pass) 0 (native s) in
  let out := use_private_key_file filename format s in
  native (snd out) = snd r /\
  self (snd out) = with_private_key_file filename (self s) /\
  private_key_file (self (snd out)) = filename /\
  fst out = ec (snd out) /\
  ec (snd out) =
    (if fst r =? GNUTLS_E_SUCCESS then ec s else mk_error_code (fst r) ssl_category).
Proof.
  intros Hlast Hne. cbv zeta.
  set (s := snd (run t _)).
  assert (Hcert : certificate_file (self s) = path).
  { subst s. rewrite certificate_file_after_run, Hlast. reflexivity. }
  assert (Hpass : passphrase (self s) = default "" (last_write passphrase_written t)).
  { subst s. apply (field_after_run passphrase passphrase_written passphrase_after_call). }
  assert (Hcred : cred (self s) = c).
  { subst s. apply (identity_after_run t). }
  assert (E : certificate_file (self s) <> "") by congruence.
  rewrite (use_private_key_file_installs filename format s E).
  rewrite Hcert, Hpass, Hcred.
  cbn [fst snd self native ec with_private_key_file private_key_file].
  repeat split.
Qed.

(** *** Strings handed over as C strings *)

Lemma c_str_idempotent (x : string) : c_str (c_str x) = c_str x.
Proof.
  induction x as [|a x IH]; [reflexivity|]. cbn [c_str].
  destruct (Ascii.eqb a zero) eqn:E; [reflexivity|].
  cbn [c_str]. rewrite E, IH. reflexivity.
Qed.

Lemma c_str_stops_at_nul (x rest : string) :
  c_str (x ++ String zero rest) = c_str x.
Proof.
  induction x as [|a x IH]; [reflexivity|].
  change (c_str (String a (x ++ String zero rest)) = c_str (String a x)).
  cbn [c_str]. destruct (Ascii.eqb a zero); [reflexivity|]. rewrite IH. reflexivity.
Qed.

Lemma c_str_has_no_nul (x : string) :
  ~ In zero (list_ascii_of_string (c_str x)).
Proof.
  induction x as [|a x IH]; [intros []|]. cbn [c_str].
  destruct (Ascii.eqb_spec a zero) as [E | E]; [intros []|].
  cbn [list_ascii_of_string]. intros [H | H]; [congruence | exact (IH H)].
Qed.

Lemma key_installers_read_passphrase_as_c_str
    (pass1 pass2 : string) (i : impl) (g : G) (e : error_code)
    (key : const_buffer) (filename : string) (format : file_format) :
  c_str pass1 = c_str pass2 ->
  let s1 := mk_st (with_passphrase pass1 i) g e in
  let s2 := mk_st (with_passphrase pass2 i) g e in
  (fst (use_private_key key format s1) = fst (use_private_key key format s2) /\
   native (snd (use_private_key key format s1)) =
     native (snd (use_private_key key format s2))) /\
  (fst (use_private_key_file filename format s1) =
     fst (use_private_key_file filename format s2) /\
   native (snd (use_private_key_file filename format s1)) =
     native (snd (use_private_key_file filename format s2))).
Proof.
  intros Hc. cbv zeta. split.
  - destruct (String.string_dec (certificate i) "") as [E | E].
    + rewrite !use_private_key_stops by exact E. split; reflexivity.
    + rewrite !use_private_key_installs by exact E.
      cbn [fst snd self native ec with_passphrase passphrase certificate cred].
      rewrite Hc. split; reflexivity.
  - destruct (String.string_dec (certificate_file i) "") as [E | E].
    + rewrite !use_private_key_file_stops by exact E. split; reflexivity.
    + rewrite !use_private_key_file_installs by exact E.
      cbn [fst snd self native ec with_passphrase passphrase certificate_file cred].
      rewrite Hc. split; reflexivity.
Qed.

(** X8: the engine reads the passphrase as a C string.  What
    [use_passphrase] stored reaches it only up to the first NUL: a
    passphrase [pass] followed by a NUL and anything else makes both key
    installers end with the same error code and the same engine state as
    the NUL-free [c_str pass] does. *)
Theorem passphrase_is_cut_at_its_first_nul
    (pass rest : string) (s : st)
    (key : const_buffer) (filename : string) (format : file_format) :
  let s1 := snd (use_passphrase (pass ++ String zero rest) s) in
  let s2 := snd (use_passphrase (c_str pass) s) in
  ~ In zero (list_ascii_of_string (c_str pass)) /\
  (fst (use_private_key key format s1) = fst (use_private_key key format s2) /\
   native (snd (use_private_key key format s1)) =
     native (snd (use_private_key key format s2))) /\
  (fst (use_private_key_file filename format s1) =
     fst (use_private_key_file filename format s2) /\
   native (snd (use_private_key_file filename format s1)) =
     native (snd (use_private_key_file filename format s2))).
Proof.
  cbv zeta. split; [apply c_str_has_no_nul|].
  apply (key_installers_read_passphrase_as_c_str
           (pass ++ String zero rest) (c_str pass) (self s) (native s) (ec s)).
  rewrite c_str_stops_at_nul, c_str_idempotent. reflexivity.
Qed.

(** *** Throwing overloads, continued *)

Lemma never_fails_iff_no_engine_call (c : call) :
  never_fails c = negb (calls_engine c).
Proof. destruct c; reflexivity. Qed.

(** X9: a throwing overload throws nothing but a [system_error], and the
    code that carries is a failure, the one its non-throwing form left in
    the fresh error variable; the overloads of the mutators that never
    write [ec] never throw; and the throwing [use_private_key] called on a
    store without certificate throws [operation_not_supported] and leaves
    store and engine as they were. *)
Theorem throwing_forms_throw_only_failures (c : call) (th : T unit) (i : impl) (g : G) :
  throwing_form c = Some th ->
  (forall x : exception, fst (th (i, g)) = Thrown x ->
     exists code : error_code,
       x = system_error code /\ failed code = true /\
       code = ec (snd (nonthrowing_form c (mk_st i g no_error)))) /\
  (never_fails c = true -> fst (th (i, g)) = Normal tt) /\
  (forall key format,
     certificate i = "" ->
     use_private_key_throwing key format (i, g) =
       (Thrown (system_error operation_not_supported), (i, g))).
Proof.
  intros Hth. split; [|split].
  - intros x Hx.
    assert (Hshape : th (i, g) =
                     throw_if_ec (snd (nonthrowing_form c (mk_st i g no_error)))).
    { destruct c; cbn [throwing_form] in Hth; try discriminate Hth;
        injection Hth as <-; cbn [nonthrowing_form];
        rewrite ?returning_state; reflexivity. }
    rewrite Hshape in Hx. unfold throw_if_ec in Hx.
    destruct (failed (ec (snd (nonthrowing_form c (mk_st i g no_error))))) eqn:Ef;
      cbn [fst] in Hx; [|discriminate Hx].
    injection Hx as <-. eexists. split; [reflexivity|]. split; [exact Ef | reflexivity].
  - intros Hn.
    destruct c; cbn [never_fails] in Hn; try discriminate Hn;
      cbn [throwing_form] in Hth; try discriminate Hth;
      injection Hth as <-; reflexivity.
  - intros key format E. unfold use_private_key_throwing, local_ec. cbn [fst snd].
    rewrite use_private_key_stops by exact E. reflexivity.
Qed.

(** ** Further properties of context objects *)

Lemma release_contexts (p : option addr) (h : heap) :
  contexts (release p h) = contexts h.
Proof.
  unfold release. destruct p as [a|]; [|reflexivity].
  destruct (stores h !! a) as [[i [|[|n]]]|]; reflexivity.
Qed.

Lemma release_shared (a : addr) (i : impl) (n : nat) (h : heap) :
  stores h !! a = Some (i, S (S n)) ->
  release (Some a) h = mk_heap (contexts h) (<[a := (i, S n)]> (stores h)) (engine h).
Proof. intros E. unfold release. rewrite E. reflexivity. Qed.

Lemma release_last (a : addr) (i : impl) (h : heap) :
  stores h !! a = Some (i, 1%nat) ->
  release (Some a) h =
    mk_heap (contexts h) (delete a (stores h))
      (gnutls_certificate_free_credentials (cred i) (engine h)).
Proof. intros E. unfold release. rewrite E. reflexivity. Qed.

Lemma fresh_store_is_unused (h : heap) : stores h !! fresh (dom (stores h)) = None.
Proof. apply not_elem_of_dom. apply is_fresh. Qed.

Lemma heap_wf_empty (g : G) : heap_wf (mk_heap ∅ ∅ g : heap).
Proof.
  split; cbn [contexts]; intros *; rewrite lookup_empty; intros E; discriminate E.
Qed.

Lemma context_ctor_wf (this : addr) (m_ : method) (h : heap)
    (o : outcome unit) (h' : heap) :
  heap_wf h -> context_ctor this m_ h = Some (o, h') -> heap_wf h'.
Proof.
  intros [Hlive Hinj]. unfold context_ctor.
  destruct (gnutls_certificate_allocate_credentials (engine h)) as [[ret c] g].
  destruct (ret =? GNUTLS_E_SUCCESS).
  - destruct (gnutls_certificate_set_known_dh_params c GNUTLS_SEC_PARAM_MEDIUM g)
      as [ignored g'].
    intros E. injection E as <- <-.
    pose proof (fresh_store_is_unused h) as Hfresh.
    set (a := fresh (dom (stores h))) in *.
    assert (Hold : forall c0 p, contexts h !! c0 = Some (Some p) -> p <> a).
    { intros c0 p Hc0 ->. destruct (Hlive _ _ Hc0) as (i & n & Hp). congruence. }
    split; cbn [contexts stores].
    + intros c0 p. rewrite lookup_insert. case_decide as Hd.
      * intros E. injection E as <-. rewrite lookup_insert_eq. eauto.
      * intros Hc0. rewrite lookup_insert_ne by (apply not_eq_sym; eauto).
        eauto.
    + intros c1 c2 p. rewrite !lookup_insert.
      repeat case_decide; intros E1 E2; subst; try reflexivity.
      * injection E1 as <-. exfalso. exact (Hold _ _ E2 eq_refl).
      * injection E2 as <-. exfalso. exact (Hold _ _ E1 eq_refl).
      * eauto.
  - destruct (gnutls_strerror ret) as [what|]; cbn [mbind option_bind];
      intros E; [|discriminate E].
    injection E as <- <-. split; cbn [contexts stores]; assumption.
Qed.

Lemma move_assign_wf (a b : addr) (h h' : heap) :
  heap_wf h -> move_assign a b h = Some h' -> heap_wf h'.
Proof.
  intros [Hlive Hinj]. unfold move_assign.
  destruct (contexts h !! b) as [src|] eqn:Hb; cbn [mbind option_bind];
    [|intros E; discriminate E].
  cbn [contexts stores engine].
  destruct ((<[b:=None]> (contexts h) : gmap addr (option addr)) !! a) as [old|] eqn:Ha;
    cbn [mbind option_bind]; [|intros E; discriminate E].
  destruct src as [p|]; cbn [mbind option_bind]; [|intros E; discriminate E].
  set (h2 := mk_heap _ _ _).
  assert (Hold : forall q, old = Some q -> a <> b /\ contexts h !! a = Some (Some q)).
  { intros q ->. rewrite lookup_insert in Ha. case_decide as Hd; [discriminate Ha|].
    split; [congruence | exact Ha]. }
  assert (Hop : old <> Some p).
  { intros E. destruct (Hold p E) as [Hab Hap]. apply Hab. eauto. }
  destruct (release_other_store old p h2 Hop) as [Hsp Hc].
  rewrite Hsp. subst h2. cbn [stores] in *.
  destruct (Hlive _ _ Hb) as (i & n & Hp). rewrite Hp. cbn [mbind option_bind fst snd].
  intros E. injection E as <-.
  set (h2 := mk_heap (<[a:=Some p]> (<[b:=None]> (contexts h))) (stores h) (engine h))
    in *.
  assert (Hother : forall c q, c <> a ->
             (<[a:=Some p]> (<[b:=None]> (contexts h)) : gmap addr (option addr)) !! c
               = Some (Some q) ->
             c <> b /\ contexts h !! c = Some (Some q) /\ q <> p /\
             stores (release old h2) !! q = stores h !! q).
  { intros c q Hca. rewrite lookup_insert_ne by congruence.
    rewrite lookup_insert. case_decide as Hd; [intros E; discriminate E|].
    intros Hc0. split; [congruence|]. split; [exact Hc0|].
    assert (Hqp : q <> p) by (intros ->; apply Hd; eauto).
    split; [exact Hqp|].
    apply (release_other_store old q h2).
    intros E. destruct (Hold q E) as [_ Haq]. apply Hca. eauto. }
  assert (Hc' : contexts (release old h2) = <[a:=Some p]> (<[b:=None]> (contexts h)))
    by (rewrite Hc; reflexivity).
  split; cbn [contexts stores]; rewrite Hc'.
  - intros c q Hcq. destruct (decide (c = a)) as [-> | Hca].
    + rewrite lookup_insert_eq in Hcq. injection Hcq as <-.
      rewrite lookup_insert_eq. eauto.
    + destruct (Hother c q Hca Hcq) as (_ & Hc0 & Hqp & Hsq).
      rewrite lookup_insert_ne by congruence. rewrite Hsq. eauto.
  - intros c1 c2 q H1 H2.
    destruct (decide (c1 = a)) as [-> | H1a]; destruct (decide (c2 = a)) as [-> | H2a];
      try reflexivity.
    + rewrite lookup_insert_eq in H1. injection H1 as <-.
      destruct (Hother c2 p H2a H2) as (_ & _ & Hpp & _). contradiction.
    + rewrite lookup_insert_eq in H2. injection H2 as <-.
      destruct (Hother c1 p H1a H1) as (_ & _ & Hpp & _). contradiction.
    + destruct (Hother c1 q H1a H1) as (_ & Hq1 & _).
      destruct (Hother c2 q H2a H2) as (_ & Hq2 & _). eauto.
Qed.

Lemma forget_context_wf (this : addr) (x : option addr) (h : heap) :
  heap_wf h -> (forall p, x = Some p -> False) ->
  heap_wf (mk_heap (<[this := x]> (contexts h)) (stores h) (engine h)).
Proof.
  intros [Hlive Hinj] Hx. split; cbn [contexts stores].
  - intros c p. rewrite lookup_insert. case_decide.
    + intros E. injection E as ->. exfalso. eauto.
    + apply Hlive.
  - intros c1 c2 p. rewrite !lookup_insert.
    repeat case_decide; intros E1 E2;
      try (injection E1 as ->; exfalso; eauto; fail);
      try (injection E2 as ->; exfalso; eauto; fail).
    eauto.
Qed.

Lemma move_ctor_wf (a b : addr) (h h' : heap) :
  heap_wf h -> move_ctor a b h = Some h' -> heap_wf h'.
Proof.
  intros Hwf. unfold move_ctor. apply move_assign_wf.
  apply forget_context_wf; [exact Hwf | intros p E; discriminate E].
Qed.

Lemma context_dtor_holding (this a : addr) (x : impl * nat) (h : heap) :
  contexts h !! this = Some (Some a) ->
  stores h !! a = Some x ->
  context_dtor this h =
    Some (release (Some a)
            (mk_heap (delete this (contexts h))
               (<[a := (with_parent None (fst x), snd x)]> (stores h)) (engine h))).
Proof. intros Ht Hx. unfold context_dtor. rewrite Ht; cbn. rewrite Hx. reflexivity. Qed.

Lemma context_dtor_empty (this : addr) (h : heap) :
  contexts h !! this = Some None ->
  context_dtor this h = Some (mk_heap (delete this (contexts h)) (stores h) (engine h)).
Proof. intros Ht. unfold context_dtor. rewrite Ht. reflexivity. Qed.

Lemma context_dtor_defined (this : addr) (h h' : heap) :
  context_dtor this h = Some h' ->
  contexts h !! this = Some None \/
  exists a x, contexts h !! this = Some (Some a) /\ stores h !! a = Some x.
Proof.
  unfold context_dtor.
  destruct (contexts h !! this) as [[a|]|]; cbn; intros E; try discriminate E.
  - destruct (stores h !! a) as [x|] eqn:Hx; [|discriminate E].
    right. exists a, x. split; [reflexivity | exact Hx].
  - left. reflexivity.
Qed.

Lemma context_dtor_wf (this : addr) (h h' : heap) :
  heap_wf h -> context_dtor this h = Some h' -> heap_wf h'.
Proof.
  intros [Hlive Hinj] Hd.
  destruct (context_dtor_defined this h h' Hd) as [Ht | (a & x & Ht & Hx)].
  - rewrite (context_dtor_empty this h Ht) in Hd. injection Hd as <-.
    split; cbn [contexts stores].
    + intros c q. rewrite lookup_delete. case_decide; [intros E; discriminate E|].
      apply Hlive.
    + intros c1 c2 q. rewrite !lookup_delete.
      repeat case_decide; intros E1 E2; try discriminate E1; try discriminate E2.
      eauto.
  - rewrite (context_dtor_holding this a x h Ht Hx) in Hd.
    apply (inj Some) in Hd. subst h'.
    set (h2 := mk_heap _ _ _).
    assert (Hother : forall c q, (delete this (contexts h)) !! c = Some (Some q) ->
               contexts h !! c = Some (Some q) /\ c <> this /\
               stores (release (Some a) h2) !! q = stores h !! q).
    { intros c q. rewrite lookup_delete. case_decide as Hd; [intros E; discriminate E|].
      intros Hc. split; [exact Hc|]. split; [congruence|].
      assert (Hqa : q <> a) by (intros ->; apply Hd; eauto).
      destruct (release_other_store (Some a) q h2) as [Hs _]; [congruence|].
      rewrite Hs. subst h2. cbn [stores]. apply lookup_insert_ne. congruence. }
    assert (Hc' : contexts (release (Some a) h2) = delete this (contexts h))
      by (rewrite release_contexts; reflexivity).
    unfold heap_wf. rewrite Hc'. split.
    + intros c q Hc. destruct (Hother c q Hc) as (Hc0 & _ & Hs). rewrite Hs. eauto.
    + intros c1 c2 q H1 H2.
      destruct (Hother c1 q H1) as (H1' & _). destruct (Hother c2 q H2) as (H2' & _).
      eauto.
Qed.

Lemma on_context_wf {A : Type} (this : addr) (f : M A) (e : error_code)
    (h : heap) (r : A) (e' : error_code) (h' : heap) :
  heap_wf h -> on_context this f e h = Some (r, e', h') -> heap_wf h'.
Proof.
  intros [Hlive Hinj]. unfold on_context.
  destruct (contexts h !! this) as [[a|]|] eqn:Ht; cbn [mbind option_bind];
    try (intros E; discriminate E).
  destruct (stores h !! a) as [x|] eqn:Hx; cbn [mbind option_bind];
    [|intros E; discriminate E].
  destruct (f _) as [r0 s]. intros E. injection E as <- <- <-.
  destruct (Hlive _ _ Ht) as (i & n & Ha). rewrite Ha in Hx. injection Hx as <-.
  split; cbn [contexts stores]; [|exact Hinj].
  intros c q Hc. rewrite lookup_insert. case_decide; [cbn [snd]; eauto|].
  eauto.
Qed.

(** X10: the heaps the class produces stay well formed: starting from a
    heap in which every context's store is live with a positive use count
    and no two contexts hold the same store (the empty heap is one), the
    constructor, move assignment, move construction, the destructor and
    every mutator lead to such a heap again. *)
Theorem well_formed_heaps_stay_well_formed (h : heap) :
  heap_wf (mk_heap ∅ ∅ (engine h) : heap) /\
  (heap_wf h ->
   (forall this m_ o h', context_ctor this m_ h = Some (o, h') -> heap_wf h') /\
   (forall a b h', move_assign a b h = Some h' -> heap_wf h') /\
   (forall a b h', move_ctor a b h = Some h' -> heap_wf h') /\
   (forall this h', context_dtor this h = Some h' -> heap_wf h') /\
   (forall (A : Type) this (f : M A) e r e' h',
      on_context this f e h = Some (r, e', h') -> heap_wf h')).
Proof.
  split; [apply heap_wf_empty|]. intros Hwf.
  split; [|split; [|split; [|split]]].
  - intros this m_ o h'. apply context_ctor_wf. exact Hwf.
  - intros a b h'. apply move_assign_wf. exact Hwf.
  - intros a b h'. apply move_ctor_wf. exact Hwf.
  - intros this h'. apply context_dtor_wf. exact Hwf.
  - intros A this f e r e' h'. apply on_context_wf. exact Hwf.
Qed.

Lemma move_assign_defined (a b p : addr) (h : heap) :
  heap_wf h ->
  contexts h !! b = Some (Some p) ->
  is_Some (contexts h !! a) ->
  is_Some (move_assign a b h).
Proof.
  intros [Hlive Hinj] Hb [pa Ha].
  destruct (Hlive _ _ Hb) as (i & n & Hp).
  destruct (decide (a = b)) as [-> | Hab].
  - destruct (move_assign_steps b b p None (i, S n) h Hb) as [E _];
      [apply lookup_insert_eq | discriminate | exact Hp |].
    rewrite E. eexists. reflexivity.
  - destruct (move_assign_steps a b p pa (i, S n) h Hb) as [E _];
      [rewrite lookup_insert_ne by congruence; exact Ha | | exact Hp |].
    + intros ->. apply Hab. eauto.
    + rewrite E. eexists. reflexivity.
Qed.

(** X11: in a well-formed heap everything is defined on a context that
    holds a store: [native_handle], every mutator, the destructor, move
    assignment from it into any existing context and move construction
    from it at any other address. *)
Theorem a_context_with_a_store_can_be_used (h : heap) (c p : addr) :
  heap_wf h ->
  contexts h !! c = Some (Some p) ->
  is_Some (native_handle c h) /\
  (forall (A : Type) (f : M A) (e : error_code), is_Some (on_context c f e h)) /\
  is_Some (context_dtor c h) /\
  (forall a, is_Some (contexts h !! a) -> is_Some (move_assign a c h)) /\
  (forall a, a <> c -> is_Some (move_ctor a c h)).
Proof.
  intros Hwf Hc. pose proof Hwf as [Hlive Hinj].
  destruct (Hlive _ _ Hc) as (i & n & Hp).
  split; [|split; [|split; [|split]]].
  - unfold native_handle. rewrite Hc. cbn [mbind option_bind]. rewrite Hp.
    eexists. reflexivity.
  - intros A f e. unfold on_context. rewrite Hc. cbn [mbind option_bind]. rewrite Hp.
    cbn [mbind option_bind]. destruct (f _). eexists. reflexivity.
  - rewrite (context_dtor_holding c p (i, S n) h Hc Hp). eexists. reflexivity.
  - intros a Ha. apply (move_assign_defined a c p h Hwf Hc Ha).
  - intros a Hac. unfold move_ctor.
    apply (move_assign_defined a c p).
    + apply forget_context_wf; [exact Hwf | intros q E; discriminate E].
    + cbn [contexts]. rewrite lookup_insert_ne by congruence. exact Hc.
    + cbn [contexts]. rewrite lookup_insert_eq. eexists. reflexivity.
Qed.

Lemma context_ctor_success (this : addr) (m_ : method) (h h' : heap) :
  context_ctor this m_ h = Some (Normal tt, h') ->
  exists c g g',
    gnutls_certificate_allocate_credentials (engine h) = (GNUTLS_E_SUCCESS, c, g) /\
    g' = snd (gnutls_certificate_set_known_dh_params c GNUTLS_SEC_PARAM_MEDIUM g) /\
    h' = mk_heap (<[this := Some (fresh (dom (stores h)))]> (contexts h))
           (<[fresh (dom (stores h)) := (new_impl this m_ c, 1%nat)]> (stores h)) g'.
Proof.
  unfold context_ctor.
  destruct (gnutls_certificate_allocate_credentials (engine h)) as [[ret c] g].
  destruct (Z.eqb_spec ret GNUTLS_E_SUCCESS) as [-> | Hne].
  - destruct (gnutls_certificate_set_known_dh_params c GNUTLS_SEC_PARAM_MEDIUM g)
      as [ignored g'] eqn:Edh.
    intros E. apply (inj Some) in E. injection E as <-.
    exists c, g, g'. split; [reflexivity|]. split; [rewrite Edh|]; reflexivity.
  - destruct (gnutls_strerror ret); cbn [mbind option_bind]; intros E; discriminate E.
Qed.

(** X12: a context that was constructed holds a store nothing else
    holds, with use count 1 and everything but method, owner and handle
    at its default; the contexts and stores that were there are as they
    were, with the native handles they had; and installing a private key
    on the new context, in either form, stops with
    [operation_not_supported] and changes nothing. *)
Theorem a_new_context_is_separate_and_unconfigured
    (this : addr) (m_ : method) (h h' : heap) :
  context_ctor this m_ h = Some (Normal tt, h') ->
  exists (a : addr) (c : native_handle_type),
    contexts h' !! this = Some (Some a) /\
    stores h !! a = None /\
    stores h' !! a = Some (new_impl this m_ c, 1%nat) /\
    native_handle this h' = Some c /\
    (forall other, other <> this -> contexts h' !! other = contexts h !! other) /\
    (forall q, q <> a -> stores h' !! q = stores h !! q) /\
    (forall other, other <> this -> is_Some (native_handle other h) ->
       native_handle other h' = native_handle other h) /\
    (forall key filename format e,
       on_context this (use_private_key key format) e h' =
         Some (operation_not_supported, operation_not_supported, h') /\
       on_context this (use_private_key_file filename format) e h' =
         Some (operation_not_supported, operation_not_supported, h')).
Proof.
  intros Hctor.
  destruct (context_ctor_success this m_ h h' Hctor) as (c & g & g' & _ & _ & ->).
  pose proof (fresh_store_is_unused h) as Hfresh.
  set (a := fresh (dom (stores h))) in *.
  exists a, c. cbn [contexts stores].
  assert (Hthis : (<[this:=Some a]> (contexts h) : gmap addr (option addr)) !! this
                  = Some (Some a)) by apply lookup_insert_eq.
  assert (Hstore : (<[a:=(new_impl this m_ c, 1%nat)]> (stores h)
                    : gmap addr (impl * nat)) !! a
                   = Some (new_impl this m_ c, 1%nat)) by apply lookup_insert_eq.
  split; [exact Hthis|]. split; [exact Hfresh|]. split; [exact Hstore|].
  split.
  { unfold native_handle. cbn [contexts stores]. rewrite Hthis.
    cbn [mbind option_bind]. rewrite Hstore. reflexivity. }
  split; [intros other Ho; apply lookup_insert_ne; congruence|].
  split; [intros q Hq; apply lookup_insert_ne; congruence|].
  split.
  { intros other Ho. unfold native_handle. cbn [contexts stores].
    rewrite lookup_insert_ne by congruence.
    destruct (contexts h !! other) as [[q|]|]; cbn [mbind option_bind];
      try (intros [? E]; discriminate E).
    destruct (stores h !! q) as [x|] eqn:Hq; cbn [mbind option_bind];
      [|intros [? E]; discriminate E].
    intros _. rewrite lookup_insert_ne by congruence. rewrite Hq. reflexivity. }
  intros key filename format e. unfold on_context. cbn [contexts stores engine].
  rewrite Hthis. cbn [mbind option_bind]. rewrite Hstore. cbn [mbind option_bind fst snd].
  rewrite use_private_key_stops, use_private_key_file_stops by reflexivity.
  cbn [self native ec]. rewrite insert_insert_eq. split; reflexivity.
Qed.

(** X13: move-assigning a context from itself leaves it holding its
    store: contexts and engine are unchanged, the store keeps its contents
    and its use count and names the context as its owner, and the native
    handle is the same. *)
Theorem self_move_assignment_keeps_the_store
    (h : heap) (a p : addr) (i : impl) (n : nat) :
  contexts h !! a = Some (Some p) ->
  stores h !! p = Some (i, n) ->
  move_assign a a h =
    Some (mk_heap (contexts h) (<[p := (with_parent (Some a) i, n)]> (stores h))
            (engine h)) /\
  native_handle a
    (mk_heap (contexts h) (<[p := (with_parent (Some a) i, n)]> (stores h)) (engine h))
  = native_handle a h.
Proof.
  intros Ha Hp. split.
  - destruct (move_assign_steps a a p None (i, n) h Ha) as [E _];
      [apply lookup_insert_eq | discriminate | exact Hp |].
    rewrite E. cbn [release fst snd stores engine].
    rewrite insert_insert_eq, (insert_id (contexts h) a (Some p) Ha). reflexivity.
  - unfold native_handle. cbn [contexts stores]. rewrite Ha. cbn [mbind option_bind].
    rewrite lookup_insert_eq, Hp. reflexivity.
Qed.


(** On a context that holds a live store, [call_on_context] is
    [on_context] for every mutator: the two that do not touch [m_impl]
    leave the store as it is. *)
Lemma call_on_context_live (this a : addr) (x : impl * nat) (c : call)
    (e : error_code) (h : heap) :
  contexts h !! this = Some (Some a) ->
  stores h !! a = Some x ->
  call_on_context this c e h = on_context this (nonthrowing_form c) e h.
Proof.
  intros Ht Hx. unfold call_on_context.
  destruct (touches_m_impl c) eqn:Hc; [reflexivity|].
  unfold on_context. rewrite Ht. cbn [mbind option_bind]. rewrite Hx.
  cbn [mbind option_bind].
  assert (Hid : <[a:=(x.1, x.2)]> (stores h) = stores h).
  { apply insert_id. rewrite Hx. destruct x; reflexivity. }
  destruct c; try discriminate Hc; cbn; rewrite Hid; destruct h; reflexivity.
Qed.

(** X15: destroying a context that holds a store drops one reference to
    it.  If another holder remains, the store lives on with its
    back-reference cleared and the engine is not touched; if the context
    was the last holder, the store is gone and its credentials were freed
    in the engine.  Other stores are not affected. *)
Theorem destroying_a_context_releases_its_store
    (h : heap) (this p : addr) (i : impl) (n : nat) :
  contexts h !! this = Some (Some p) ->
  stores h !! p = Some (i, S n) ->
  exists h' : heap,
    context_dtor this h = Some h' /\
    contexts h' = delete this (contexts h) /\
    (forall q, q <> p -> stores h' !! q = stores h !! q) /\
    match n with
    | O => stores h' !! p = None /\
           engine h' = gnutls_certificate_free_credentials (cred i) (engine h)
    | S k => stores h' !! p = Some (with_parent None i, S k) /\
             engine h' = engine h
    end.
Proof.
  intros Ht Hp. rewrite (context_dtor_holding this p (i, S n) h Ht Hp).
  eexists. split; [reflexivity|]. cbn [fst snd].
  set (h2 := mk_heap _ _ _).
  assert (Hp2 : stores h2 !! p = Some (with_parent None i, S n))
    by (subst h2; cbn [stores]; apply lookup_insert_eq).
  split; [rewrite release_contexts; reflexivity|].
  split.
  { intros q Hq. destruct (release_other_store (Some p) q h2) as [Hs _]; [congruence|].
    rewrite Hs. subst h2. cbn [stores]. apply lookup_insert_ne. congruence. }
  destruct n as [|k].
  - rewrite (release_last p _ h2 Hp2). cbn [stores engine].
    split; [apply lookup_delete_eq | reflexivity].
  - rewrite (release_shared p _ k h2 Hp2). cbn [stores engine].
    split; [apply lookup_insert_eq | reflexivity].
Qed.

(** X16: move assignment drops the reference the destination held.  If
    the destination was the last holder of its old store, that store is
    destroyed and its credentials are freed in the engine; if another
    holder remains, the old store lives on with one reference less, and
    its back-reference is not touched: it still names whatever it named,
    the destination included. *)
Theorem move_assign_drops_the_old_store
    (h : heap) (a b q p : addr) (j : impl) (n : nat) (x : impl * nat) :
  a <> b ->
  q <> p ->
  contexts h !! a = Some (Some q) ->
  stores h !! q = Some (j, S n) ->
  contexts h !! b = Some (Some p) ->
  stores h !! p = Some x ->
  exists h' : heap,
    move_assign a b h = Some h' /\
    contexts h' !! a = Some (Some p) /\
    match n with
    | O => stores h' !! q = None /\
           engine h' = gnutls_certificate_free_credentials (cred j) (engine h)
    | S k => stores h' !! q = Some (j, S k) /\
             owner_of q h' = parent j /\
             engine h' = engine h
    end.
Proof.
  intros Hab Hqp Ha Hq Hb Hp.
  destruct (move_assign_steps a b p (Some q) x h Hb) as [E _];
    [rewrite lookup_insert_ne by congruence; exact Ha | congruence | exact Hp |].
  rewrite E. eexists. split; [reflexivity|]. cbn [contexts stores engine].
  split; [apply lookup_insert_eq|].
  set (h2 := mk_heap _ _ _).
  assert (Hq2 : stores h2 !! q = Some (j, S n)) by exact Hq.
  destruct n as [|k].
  - rewrite (release_last q j h2 Hq2). cbn [stores engine].
    split; [|reflexivity].
    rewrite lookup_insert_ne by congruence. apply lookup_delete_eq.
  - rewrite (release_shared q j k h2 Hq2). subst h2. cbn [contexts stores engine].
    assert (Hq3 : (<[p:=(with_parent (Some a) x.1, x.2)]> (<[q:=(j, S k)]> (stores h))
                   : gmap addr (impl * nat)) !! q = Some (j, S k)).
    { rewrite lookup_insert_ne by congruence. apply lookup_insert_eq. }
    split; [exact Hq3|]. split; [|reflexivity].
    unfold owner_of. cbn [stores]. rewrite Hq3. reflexivity.
Qed.

(** X17: what was configured through a context is configured on the
    context it is moved into: after move-assigning [a] from [b], a mutator
    called on [a] runs on the store [b] had, unchanged but for its
    back-reference; so a certificate stored through [b] lets a private key
    be installed through [a]. *)
Theorem configuration_moves_with_the_store
    (h : heap) (a b : addr) (pa : option addr) (p : addr) (i : impl) (n : nat) :
  a <> b ->
  contexts h !! a = Some pa ->
  pa <> Some p ->
  contexts h !! b = Some (Some p) ->
  stores h !! p = Some (i, n) ->
  exists h' : heap,
    move_assign a b h = Some h' /\
    (forall (A : Type) (f : M A) (e : error_code),
       on_context a f e h' =
         Some (fst (f (mk_st (with_parent (Some a) i) (engine h') e)),
               ec (snd (f (mk_st (with_parent (Some a) i) (engine h') e))),
               mk_heap (contexts h')
                 (<[p := (self (snd (f (mk_st (with_parent (Some a) i) (engine h') e))), n)]>
                    (stores h'))
                 (native (snd (f (mk_st (with_parent (Some a) i) (engine h') e)))))) /\
    (forall key format,
       certificate i <> "" ->
       exists r e' h'',
         on_context a (use_private_key key format) no_error h' = Some (r, e', h'') /\
         e' <> operation_not_supported).
Proof.
  intros Hab Ha Hpa Hb Hp.
  destruct (move_assign_steps a b p pa (i, n) h Hb) as [E _];
    [rewrite lookup_insert_ne by congruence; exact Ha | exact Hpa | exact Hp |].
  rewrite E. eexists. split; [reflexivity|].
  cbn [fst snd contexts stores engine].
  set (h3 := release pa _).
  assert (Hrun : forall (A : Type) (f : M A) (e : error_code),
             on_context a f e
               (mk_heap (<[a:=Some p]> (<[b:=None]> (contexts h)))
                  (<[p:=(with_parent (Some a) i, n)]> (stores h3)) (engine h3)) =
             Some (fst (f (mk_st (with_parent (Some a) i) (engine h3) e)),
                   ec (snd (f (mk_st (with_parent (Some a) i) (engine h3) e))),
                   mk_heap (<[a:=Some p]> (<[b:=None]> (contexts h)))
                     (<[p := (self (snd (f (mk_st (with_parent (Some a) i) (engine h3) e))),
                              n)]>
                        (<[p:=(with_parent (Some a) i, n)]> (stores h3)))
                     (native (snd (f (mk_st (with_parent (Some a) i) (engine h3) e)))))).
  { intros A f e. unfold on_context. cbn [contexts stores engine].
    rewrite lookup_insert_eq. cbn [mbind option_bind].
    rewrite lookup_insert_eq. cbn [mbind option_bind fst snd].
    destruct (f _) as [r s]. reflexivity. }
  split; [exact Hrun|].
  intros key format Hcert. rewrite Hrun.
  do 3 eexists. split; [reflexivity|].
  set (s := mk_st (with_parent (Some a) i) (engine h3) no_error).
  assert (Hs : certificate (self s) <> "") by exact Hcert.
  rewrite (use_private_key_installs key format s Hs). cbn [fst snd ec].
  apply goes_on_is_not_sequencing_error. discriminate.
Qed.

(** X18: no mutator called on a context changes which store a context
    holds, the native handle of any context, the owner a store names or
    the use count of a store; and the mutators that do not call into the
    engine leave the engine state as it was. *)
Theorem configuring_a_context_keeps_handles_owners_and_counts
    (h : heap) (this : addr) (c : call) (e : error_code)
    (r : option error_code) (e' : error_code) (h' : heap) :
  on_context this (nonthrowing_form c) e h = Some (r, e', h') ->
  contexts h' = contexts h /\
  (forall b, native_handle b h' = native_handle b h) /\
  (forall q, owner_of q h' = owner_of q h) /\
  (forall q, snd <$> stores h' !! q = snd <$> stores h !! q) /\
  (calls_engine c = false -> engine h' = engine h).
Proof.
  unfold on_context.
  destruct (contexts h !! this) as [[a|]|] eqn:Ht; cbn [mbind option_bind];
    try (intros E; discriminate E).
  destruct (stores h !! a) as [x|] eqn:Hx; cbn [mbind option_bind];
    [|intros E; discriminate E].
  pose proof (identity_after_call c (mk_st x.1 (engine h) e)) as (_ & Hcred & Hparent).
  pose proof (engine_after_call c (mk_st x.1 (engine h) e)) as Hengine.
  destruct (nonthrowing_form c (mk_st x.1 (engine h) e)) as [r0 s].
  cbn [fst snd self native] in Hcred, Hparent, Hengine.
  intros E. apply (inj Some) in E. injection E as <- <- <-.
  cbn [contexts stores engine].
  assert (Hlook : forall q,
             (<[a:=(self s, x.2)]> (stores h) : gmap addr (impl * nat)) !! q =
             if decide (a = q) then Some (self s, x.2) else stores h !! q)
    by (intros q; apply lookup_insert).
  split; [reflexivity|]. split; [|split; [|split]].
  - intros b. unfold native_handle. cbn [contexts stores].
    destruct (contexts h !! b) as [[q|]|]; cbn [mbind option_bind]; try reflexivity.
    rewrite Hlook. case_decide as Hd; [|reflexivity].
    subst q. rewrite Hx. cbn [mbind option_bind fst]. rewrite Hcred. reflexivity.
  - intros q. unfold owner_of. cbn [stores]. rewrite Hlook.
    case_decide as Hd; [|reflexivity].
    subst q. rewrite Hx. cbn [mbind option_bind fst]. exact Hparent.
  - intros q. rewrite Hlook. case_decide as Hd; [|reflexivity].
    subst q. rewrite Hx. reflexivity.
  - exact Hengine.
Qed.

(** *** The method constants *)

(** X19: the eighteen method constants have distinct values, each below
    0x10000, with a low byte that is 0, 1 or 2; [is_server] holds exactly
    for low byte 2. *)
Theorem method_constants_are_distinct (x y : method) :
  (method_value x = method_value y -> x = y) /\
  0 <= method_value x < 0x10000 /\
  (Z.land (method_value x) 0xff = 0 \/ Z.land (method_value x) 0xff = 1 \/
   Z.land (method_value x) 0xff = 2) /\
  (is_server x = true <-> Z.land (method_value x) 0xff = 2).
Proof.
  split; [|split; [|split]].
  - destruct x, y; intros E; try reflexivity; discriminate E.
  - destruct x; cbn; lia.
  - destruct x; cbn; auto.
  - destruct x; cbn; split; intros E; try reflexivity; discriminate E.
Qed.

End Properties.

(** * The properties at concrete inputs, on the small engine *)

(** A store on which only a certificate file and a passphrase were set:
    the buffer form of the key installer stops with the sequencing error
    and leaves the store and the engine alone. *)
Lemma private_key_needs_a_nonempty_certificate_witness :
  let t := [UseCertificateFile "server.pem" pem; UsePassphrase "pw"] in
  let s := snd (run t fresh_server) in
  last_certificate t = None /\
  use_private_key [x6b%byte] pem s =
    (operation_not_supported, mk_st (self s) (native s) operation_not_supported).
Proof.
  cbv zeta. split; [reflexivity|].
  pose proof (private_key_needs_a_nonempty_certificate (G := small_state)
                (verify_context := unit) (stream_base := unit)
                [UseCertificateFile "server.pem" pem; UsePassphrase "pw"]
                0%nat tls_server 1 small_start no_error no_error
                [x6b%byte] "server.key" pem) as (Hnone & _ & Hstop & _).
  apply Hstop. apply Hnone. reflexivity.
Defined.

(** A zero-length certificate buffer is stored without error, and the key
    installer still stops with the sequencing error: "a certificate was
    stored" is not what the check tests. *)
Lemma empty_certificate_still_stops_the_key :
  ~ (forall (t : list (@call unit unit)) (key : const_buffer) (format : file_format),
       last_certificate t <> None ->
       fst (use_private_key key format (snd (run t fresh_server)))
         <> operation_not_supported).
Proof.
  intros claim.
  apply (claim [UseCertificate [] pem] [x6b%byte] pem).
  - discriminate.
  - reflexivity.
Qed.

(** The two extension mutators have no throwing overload. *)
Lemma set_verify_trust_has_no_throwing_form :
  ~ (forall c : @call unit unit,
       is_Some (throwing_form (G := small_state) c)).
Proof.
  intros claim. destruct (claim (SetVerifyTrust [] pem)) as [th Hth].
  discriminate Hth.
Qed.

(** Moving the client context at 11 into the server context at 10. *)
Lemma move_assign_hands_over_the_store_witness :
  exists h' : small_heap,
    move_assign 10%nat 11%nat two_contexts = Some h' /\
    native_handle 11%nat two_contexts = Some 2 /\
    native_handle 10%nat h' = Some 2 /\
    owner_of 1%nat h' = Some 10%nat /\
    contexts h' !! 10%nat = Some (Some 1%nat) /\
    contexts h' !! 11%nat = Some None /\
    native_handle 11%nat h' = None /\
    call_on_context 11%nat (UsePassphrase "pw") no_error h' = None /\
    call_on_context 11%nat (UseTmpDh []) no_error h' = Some (Some no_error, no_error, h').
Proof.
  destruct (move_assign_hands_over_the_store (G := small_state)
              (Gnutls0 := small_engine) (verify_context := unit) (stream_base := unit)
              two_contexts 10%nat 11%nat
              (Some 0%nat) 1%nat (new_impl 11%nat tls_client 2) 1%nat)
    as (h' & Hm & Hb & Ha & Ho & Hca & Hrest).
  - vm_compute; reflexivity.
  - intros _. discriminate.
  - vm_compute; reflexivity.
  - vm_compute; reflexivity.
  - destruct Hrest as (Hcb & Hnb & Hcall); [discriminate|].
    exists h'. repeat (split; [assumption|]).
    split; [exact (Hcall (UsePassphrase "pw") no_error)|].
    exact (Hcall (UseTmpDh []) no_error).
Defined.

(** An empty DER buffer: the small engine answers
    [GNUTLS_E_ASN1_DER_ERROR], and that is what [ec] ends up as.  A PEM
    buffer with one certificate header: the answer is 1 and [ec] stays
    clear. *)
Lemma set_verify_trust_reports_negative_results_witness :
  failed (ec fresh_server) = false /\
  ec (snd (set_verify_trust [] der fresh_server)) =
    mk_error_code GNUTLS_E_ASN1_DER_ERROR ssl_category /\
  failed (ec (snd (set_verify_trust [] der fresh_server))) = true /\
  ec (snd (set_verify_trust (list_byte_of_string pem_certificate_header) pem
             fresh_server)) = no_error.
Proof.
  pose proof (set_verify_trust_reports_negative_results (G := small_state)
                (Gnutls0 := small_engine) (verify_context := unit) (stream_base := unit)
                [] der fresh_server) as (_ & _ & _ & Hec & Hneg & _ & Hiff).
  pose proof (set_verify_trust_reports_negative_results (G := small_state)
                (Gnutls0 := small_engine) (verify_context := unit) (stream_base := unit)
                (list_byte_of_string pem_certificate_header) pem fresh_server)
    as (_ & _ & _ & _ & _ & Hpos & _).
  split; [reflexivity|]. split; [exact Hec|]. split.
  - apply Hiff; [reflexivity|]. vm_compute; reflexivity.
  - apply Hpos. vm_compute. discriminate.
Defined.

(** A PEM buffer without any certificate: the small engine processes
    nothing and answers 0, and [set_verify_trust] reports no error. *)
Lemma no_certificate_processed_is_no_error :
  ~ (forall (cert : const_buffer) (format : file_format),
       fst (gnutls_certificate_set_x509_trust_mem (cred (self fresh_server))
              (mk_datum (string_of_buffer cert) (String.length (string_of_buffer cert)))
              (native_format format) (native fresh_server)) <= 0 ->
       failed (ec (snd (set_verify_trust cert format fresh_server))) = true).
Proof.
  intros claim. specialize (claim [] pem).
  assert (Hclear : failed (ec (snd (set_verify_trust [] pem fresh_server))) = false)
    by reflexivity.
  rewrite claim in Hclear; [discriminate Hclear|].
  vm_compute. discriminate.
Qed.

(** Construction on a started engine, and on an exhausted one. *)
Lemma construction_succeeds_or_throws_witness :
  (exists h' : small_heap,
     context_ctor 10%nat tlsv12_client (mk_heap ∅ ∅ small_start) = Some (Normal tt, h') /\
     native_handle 10%nat h' = Some 1 /\ 1 <> 0 /\
     (exists a, contexts h' !! 10%nat = Some (Some a) /\ owner_of a h' = Some 10%nat)) /\
  context_ctor 10%nat tlsv12_client exhausted =
    Some (Thrown (runtime_error
            "gnutls_certificate_allocate_credentials failed: Internal error in memory allocation."),
          exhausted).
Proof.
  pose proof (construction_succeeds_or_throws (G := small_state)
                (verify_context := unit) (stream_base := unit)
                10%nat tlsv12_client (mk_heap ∅ ∅ small_start)) as [Hok _].
  pose proof (construction_succeeds_or_throws (G := small_state)
                (verify_context := unit) (stream_base := unit)
                10%nat tlsv12_client exhausted) as [_ Hthrow].
  split.
  - refine (Hok eq_refl _). discriminate.
  - refine (Hthrow _ _ eq_refl). discriminate.
Defined.

(** A certificate stored through the buffer form only: the file form of
    the key installer stops, the buffer form goes on. *)
Lemma certificate_forms_are_independent_witness :
  let t := [UseCertificate [x63%byte; x65%byte; x72%byte; x74%byte] pem] in
  let s := snd (run t fresh_server) in
  no_error <> operation_not_supported /\
  use_private_key_file "server.key" pem s =
    (operation_not_supported, mk_st (self s) (native s) operation_not_supported) /\
  fst (use_private_key [x6b%byte] pem s) <> operation_not_supported.
Proof.
  cbv zeta.
  assert (Hne : no_error <> operation_not_supported) by discriminate.
  pose proof (certificate_forms_are_independent (G := small_state)
                (verify_context := unit) (stream_base := unit)
                [UseCertificate [x63%byte; x65%byte; x72%byte; x74%byte] pem]
                0%nat tls_server 1 small_start no_error no_error
                [x6b%byte] "server.key" pem Hne) as (_ & Hbuf & Hfile & _).
  split; [exact Hne|]. split.
  - apply Hfile. reflexivity.
  - apply Hbuf. exists "cert". split; [discriminate | reflexivity].
Defined.

(** [use_passphrase] called with an [ec] that already holds a failure. *)
Lemma never_fails_keeps_ec_witness :
  let s := mk_st (self fresh_server) small_start operation_not_supported in
  never_fails (UsePassphrase "pw" : @call unit unit) = true /\
  ec (snd (nonthrowing_form (UsePassphrase "pw") s)) = operation_not_supported /\
  fst (nonthrowing_form (UsePassphrase "pw") s) = Some operation_not_supported.
Proof.
  cbv zeta. split; [reflexivity|].
  apply (never_fails_keeps_ec (G := small_state)
           (verify_context := unit) (stream_base := unit)
           (UsePassphrase "pw")
           (mk_st (self fresh_server) small_start operation_not_supported)).
  reflexivity.
Defined.

(** * The further properties at concrete inputs *)

(** The system trust loads three certificates: [ec] ends as code 3. *)
Lemma set_default_verify_paths_reports_every_nonzero_result_witness :
  ec (snd (set_default_verify_paths (Gnutls0 := counting_engine) fresh_server)) =
    mk_error_code 3 ssl_category /\
  failed (ec (snd (set_default_verify_paths (Gnutls0 := counting_engine) fresh_server)))
    = true.
Proof.
  pose proof (set_default_verify_paths_reports_every_nonzero_result
                (G := small_state) (Gnutls0 := counting_engine)
                (verify_context := unit) (stream_base := unit) fresh_server)
    as (_ & _ & _ & _ & _ & Hpos).
  apply Hpos. reflexivity.
Defined.

Lemma storing_mutators_leave_the_engine_alone_witness :
  native (snd (run [UseCertificate cert_bytes pem; UsePassphrase "pw"; SetOptions 8;
                    SetVerifyMode 1; UseTmpDh []] fresh_server)) = small_start.
Proof.
  apply (storing_mutators_leave_the_engine_alone (G := small_state) (Gnutls0 := small_engine)
           (verify_context := unit) (stream_base := unit)
           [UseCertificate cert_bytes pem; UsePassphrase "pw"; SetOptions 8;
            SetVerifyMode 1; UseTmpDh []] fresh_server).
  reflexivity.
Defined.

(** A key without certificate, then three more calls on the same [ec]. *)
Lemma a_failed_ec_stays_failed_witness :
  let s := snd (use_private_key key_bytes pem fresh_server) in
  failed (ec s) = true /\
  failed (ec (snd (run [UseCertificate cert_bytes pem; UsePrivateKey key_bytes pem;
                        SetVerifyTrust cert_bytes pem] s))) = true.
Proof.
  cbv zeta. split; [reflexivity|].
  apply (a_failed_ec_stays_failed (G := small_state) (Gnutls0 := small_engine)
           (verify_context := unit) (stream_base := unit)).
  reflexivity.
Defined.

Lemma use_private_key_pairs_last_certificate_and_passphrase_witness :
  let t := [UsePassphrase "old"; UseCertificate [] der; UsePassphrase pass_with_nul;
            UseCertificate cert_bytes der] in
  let s := snd (run t fresh_server) in
  last_certificate t = Some "cert" /\
  native (snd (use_private_key key_bytes pem s)) =
    snd (small_key_mem2 1 (mk_datum "cert" 4) (mk_datum "key!" 4)
           GNUTLS_X509_FMT_PEM "ab" 0 (native s)) /\
  private_key (self (snd (use_private_key key_bytes pem s))) = "key!".
Proof.
  cbv zeta.
  pose proof (use_private_key_pairs_last_certificate_and_passphrase
                (G := small_state) (Gnutls0 := small_engine) (verify_context := unit) (stream_base := unit)
                [UsePassphrase "old"; UseCertificate [] der; UsePassphrase pass_with_nul;
                 UseCertificate cert_bytes der]
                0%nat tls_server 1 small_start no_error "cert" key_bytes pem
                eq_refl ltac:(discriminate)) as (Hn & _ & Hk & _).
  split; [reflexivity|]. split; [exact Hn | exact Hk].
Defined.

Lemma use_private_key_file_pairs_last_certificate_and_passphrase_witness :
  let t := [UseCertificateFile "server.pem" pem; UsePassphrase "pw"] in
  let s := snd (run t fresh_server) in
  last_certificate_file t = Some "server.pem" /\
  native (snd (use_private_key_file "server.key" pem s)) =
    snd (small_key_file2 1 "server.pem" "server.key" GNUTLS_X509_FMT_PEM "pw" 0
           (native s)) /\
  private_key_file (self (snd (use_private_key_file "server.key" pem s))) = "server.key".
Proof.
  cbv zeta.
  pose proof (use_private_key_file_pairs_last_certificate_and_passphrase
                (G := small_state) (Gnutls0 := small_engine) (verify_context := unit) (stream_base := unit)
                [UseCertificateFile "server.pem" pem; UsePassphrase "pw"]
                0%nat tls_server 1 small_start no_error "server.pem" "server.key" pem
                eq_refl ltac:(discriminate)) as (Hn & _ & Hk & _).
  split; [reflexivity|]. split; [exact Hn | exact Hk].
Defined.

Lemma throwing_forms_throw_only_failures_witness :
  throwing_form (G := small_state) (UsePrivateKey key_bytes pem : @call unit unit) =
    Some (use_private_key_throwing key_bytes pem) /\
  use_private_key_throwing key_bytes pem (self fresh_server, small_start) =
    (Thrown (system_error operation_not_supported), (self fresh_server, small_start)).
Proof.
  split; [reflexivity|].
  pose proof (throwing_forms_throw_only_failures (G := small_state) (Gnutls0 := small_engine)
                (verify_context := unit) (stream_base := unit)
                (UsePrivateKey key_bytes pem) (use_private_key_throwing key_bytes pem)
                (self fresh_server) small_start eq_refl) as (_ & _ & Hkey).
  apply Hkey. reflexivity.
Defined.

Lemma two_contexts_wf : heap_wf two_contexts.
Proof.
  unfold two_contexts, constructed.
  destruct (context_ctor 10%nat tls_server (mk_heap ∅ ∅ small_start : small_heap))
    as [[o1 h1]|] eqn:E1; [|discriminate E1].
  pose proof (context_ctor_wf _ _ _ _ _ (heap_wf_empty small_start) E1) as Hwf1.
  destruct (context_ctor 11%nat tls_client h1) as [[o2 h2]|] eqn:E2.
  - exact (context_ctor_wf _ _ _ _ _ Hwf1 E2).
  - exact Hwf1.
Defined.

Lemma well_formed_heaps_stay_well_formed_witness : heap_wf after_move.
Proof.
  pose proof (well_formed_heaps_stay_well_formed (G := small_state) (Gnutls0 := small_engine)
                (verify_context := unit) (stream_base := unit) two_contexts)
    as (_ & Hkeep).
  destruct (Hkeep two_contexts_wf) as (_ & Hmove & _).
  apply (Hmove 10%nat 11%nat). vm_compute; reflexivity.
Defined.

Lemma a_context_with_a_store_can_be_used_witness :
  contexts two_contexts !! 11%nat = Some (Some 1%nat) /\
  is_Some (native_handle 11%nat two_contexts) /\
  is_Some (move_assign 10%nat 11%nat two_contexts).
Proof.
  assert (H11 : contexts two_contexts !! 11%nat = Some (Some 1%nat))
    by (vm_compute; reflexivity).
  pose proof (a_context_with_a_store_can_be_used (G := small_state) (Gnutls0 := small_engine)
                (verify_context := unit) (stream_base := unit)
                two_contexts 11%nat 1%nat two_contexts_wf H11)
    as (Hh & _ & _ & Hmove & _).
  split; [exact H11|]. split; [exact Hh|].
  apply Hmove. exists (Some 0%nat). vm_compute; reflexivity.
Defined.

Lemma a_new_context_is_separate_and_unconfigured_witness :
  exists (a : addr) (c : native_handle_type),
    contexts two_contexts !! 11%nat = Some (Some a) /\
    native_handle 11%nat two_contexts = Some c /\
    on_context 11%nat (use_private_key key_bytes pem) no_error two_contexts =
      Some (operation_not_supported, operation_not_supported, two_contexts).
Proof.
  assert (Hctor : context_ctor 11%nat tls_client
                    (constructed 10%nat tls_server (mk_heap ∅ ∅ small_start : small_heap))
                  = Some (Normal tt, two_contexts)) by (vm_compute; reflexivity).
  destruct (a_new_context_is_separate_and_unconfigured (G := small_state)
              (Gnutls0 := small_engine) (verify_context := unit) (stream_base := unit)
              11%nat tls_client _ two_contexts Hctor)
    as (a & c & Ha & _ & _ & Hc & _ & _ & _ & Hkey).
  exists a, c. split; [exact Ha|]. split; [exact Hc|].
  exact (proj1 (Hkey key_bytes "" pem no_error)).
Defined.

Lemma self_move_assignment_keeps_the_store_witness :
  contexts shared_server !! 10%nat = Some (Some 0%nat) /\
  move_assign 10%nat 10%nat shared_server =
    Some (mk_heap (contexts shared_server)
            (<[0%nat := (with_parent (Some 10%nat) (new_impl 10%nat tls_server 1), 2%nat)]>
               (stores shared_server))
            (engine shared_server)).
Proof.
  assert (H10 : contexts shared_server !! 10%nat = Some (Some 0%nat))
    by (vm_compute; reflexivity).
  split; [exact H10|].
  apply (self_move_assignment_keeps_the_store (G := small_state) (Gnutls0 := small_engine)
           (verify_context := unit) (stream_base := unit)
           shared_server 10%nat 0%nat (new_impl 10%nat tls_server 1) 2%nat H10).
  vm_compute; reflexivity.
Defined.


(** The server's store is also held by a stream: it outlives the context,
    without owner, and its credentials are not freed. *)
Lemma destroying_a_context_releases_its_store_witness :
  exists h' : small_heap,
    context_dtor 10%nat shared_server = Some h' /\
    stores h' !! 0%nat = Some (with_parent None (new_impl 10%nat tls_server 1), 1%nat) /\
    engine h' = engine shared_server.
Proof.
  destruct (destroying_a_context_releases_its_store (G := small_state) (Gnutls0 := small_engine)
              (verify_context := unit) (stream_base := unit)
              shared_server 10%nat 0%nat (new_impl 10%nat tls_server 1) 1%nat
              ltac:(vm_compute; reflexivity) ltac:(vm_compute; reflexivity))
    as (h' & Hd & _ & _ & Hs & He).
  exists h'. split; [exact Hd|]. split; [exact Hs | exact He].
Defined.

(** The server at 10 is the only holder of its store: moving the client
    into it destroys that store and frees handle 1. *)
Lemma move_assign_drops_the_old_store_witness :
  exists h' : small_heap,
    move_assign 10%nat 11%nat two_contexts = Some h' /\
    contexts h' !! 10%nat = Some (Some 1%nat) /\
    stores h' !! 0%nat = None /\
    engine h' = gnutls_certificate_free_credentials 1 (engine two_contexts).
Proof.
  destruct (move_assign_drops_the_old_store (G := small_state) (Gnutls0 := small_engine)
              (verify_context := unit) (stream_base := unit)
              two_contexts 10%nat 11%nat 0%nat 1%nat
              (new_impl 10%nat tls_server 1) 0%nat (new_impl 11%nat tls_client 2, 1%nat)
              ltac:(discriminate) ltac:(discriminate)
              ltac:(vm_compute; reflexivity) ltac:(vm_compute; reflexivity)
              ltac:(vm_compute; reflexivity) ltac:(vm_compute; reflexivity))
    as (h' & Hm & Ha & Hs & He).
  exists h'. split; [exact Hm|]. split; [exact Ha|]. split; [exact Hs | exact He].
Defined.

(** The certificate stored through the client at 11 is there when the key
    is installed through the server at 10, after the move. *)
Lemma configuration_moves_with_the_store_witness :
  exists h' : small_heap,
    move_assign 10%nat 11%nat client_with_certificate = Some h' /\
    exists r e' h'',
      on_context 10%nat (use_private_key key_bytes pem) no_error h' = Some (r, e', h'') /\
      e' <> operation_not_supported.
Proof.
  destruct (configuration_moves_with_the_store (G := small_state) (Gnutls0 := small_engine)
              (verify_context := unit) (stream_base := unit)
              client_with_certificate 10%nat 11%nat (Some 0%nat) 1%nat
              (with_certificate "cert" (new_impl 11%nat tls_client 2)) 1%nat
              ltac:(discriminate) ltac:(vm_compute; reflexivity) ltac:(discriminate)
              ltac:(vm_compute; reflexivity) ltac:(vm_compute; reflexivity))
    as (h' & Hm & _ & Hkey).
  exists h'. split; [exact Hm|].
  apply Hkey. discriminate.
Defined.

Lemma configuring_a_context_keeps_handles_owners_and_counts_witness :
  contexts client_with_certificate = contexts two_contexts /\
  (forall b, native_handle b client_with_certificate = native_handle b two_contexts) /\
  engine client_with_certificate = engine two_contexts.
Proof.
  pose proof (configuring_a_context_keeps_handles_owners_and_counts (G := small_state) (Gnutls0 := small_engine)
                (verify_context := unit) (stream_base := unit)
                two_contexts 11%nat (UseCertificate cert_bytes pem) no_error
                (Some no_error) no_error client_with_certificate
                ltac:(vm_compute; reflexivity)) as (Hc & Hh & _ & _ & He).
  split; [exact Hc|]. split; [exact Hh|]. apply He. reflexivity.
Defined.

Lemma passphrase_is_cut_at_its_first_nul_witness :
  let s := snd (use_certificate cert_bytes pem fresh_server) in
  fst (use_private_key key_bytes pem (snd (use_passphrase pass_with_nul s))) =
    fst (use_private_key key_bytes pem (snd (use_passphrase "ab" s))).
Proof.
  cbv zeta.
  pose proof (passphrase_is_cut_at_its_first_nul (G := small_state) (Gnutls0 := small_engine)
                (verify_context := unit) (stream_base := unit)
                "ab" "cd" (snd (use_certificate cert_bytes pem fresh_server))
                key_bytes "" pem) as (_ & (Hk & _) & _).
  exact Hk.
Defined.

Lemma method_constants_are_distinct_witness :
  method_value tlsv12_server = method_value tlsv12_server /\
  tlsv12_server = tlsv12_server.
Proof.
  split; [reflexivity|].
  apply (proj1 (method_constants_are_distinct tlsv12_server tlsv12_server)).
  reflexivity.
Defined.
